(** * finhelper/backend: the ledger computations of the Mongoose models

    A shallow embedding of the computational parts of the models

    - [Budget]  (src/models/Budget.ts): [calculateStats], [updateStatus],
      the virtuals [isExpired], [isOverBudget], [daysElapsed], [shouldAlert];
    - [Expense] (models/Expense): the [pre('save')] hook that fills
      [splitAmounts], and [calculateNextOccurrence];
    - [Group]   (models/Group): [addMember], [removeMember], [isMember],
      [isAdmin] and the [pre('save')] hook that refreshes [memberCount];

    followed by the properties of the specification that concern them.

    Conventions of the embedding.

    - A JavaScript [number] holding money is an IEEE 754 binary64 value,
      modelled by [spec_float] of the standard library with [prec = 53] and
      [emax = 1024]; every arithmetic operator of the source is the
      correctly rounded operation of [SpecFloat].
    - A [Date] is its time value: an integer number of milliseconds since
      the epoch, in [Z].  Time values, day counts and recurrence intervals
      are integers far below [2^53], on which the binary64 operations of
      the source are exact, so they are computed in [Z].  A date produced by
      a setter may leave the representable range; [TimeClip] then makes it
      an invalid date, as in ECMAScript.
    - [new Date()] reads the clock: the current time is an explicit
      argument [now] of every function that needs it.
    - A method that mutates [this] becomes a function returning the updated
      record (together with the method's return value, when it has one).
    - An [ObjectId] is compared in the source through [toString()]; it is
      modelled by that string. *)

From Stdlib Require Import ZArith Bool Lia.
From Stdlib Require Import Floats.SpecFloat.
From stdpp Require Import base option list strings.

Local Open Scope Z_scope.

(* ===================================================================== *)
(** * JavaScript numbers (binary64) *)
(* ===================================================================== *)

Module Num.

Definition number : Type := spec_float.

Definition prec : Z := 53.
Definition emax : Z := 1024.

(** A numeric literal or an integer converted to a number. *)
Definition ofZ (z : Z) : number := binary_normalize prec emax z 0 false.

Definition add : number -> number -> number := SFadd prec emax.
Definition sub : number -> number -> number := SFsub prec emax.
Definition mul : number -> number -> number := SFmul prec emax.
Definition div : number -> number -> number := SFdiv prec emax.

(** [a < b], [a > b], [a <= b], [a >= b] and [a === b] of ECMAScript: every
    comparison with NaN is false; [a > b] is [b < a], and [a <= b] is
    "[b < a] is neither true nor undefined". *)
Definition lt (a b : number) : bool := SFltb a b.
Definition gt (a b : number) : bool := SFltb b a.
Definition le (a b : number) : bool :=
  match SFcompare b a with
  | Some Lt | None => false
  | Some _ => true
  end.
Definition ge (a b : number) : bool :=
  match SFcompare a b with
  | Some Lt | None => false
  | Some _ => true
  end.
Definition eq (a b : number) : bool := SFeqb a b.

Definition isNaN (a : number) : bool :=
  match a with S754_nan => true | _ => false end.

(** [Math.round]: the nearest integer, ties towards +infinity; zeros,
    infinities and NaN are returned unchanged, and a negative argument that
    rounds to zero gives -0.  A finite [m * 2^e] with [e >= 0] is already an
    integer; otherwise the result is [floor (x + 1/2)], computed exactly. *)
Definition round (x : number) : number :=
  match x with
  | S754_finite s m e =>
      if 0 <=? e then x
      else binary_normalize prec emax
             ((2 * cond_Zopp s (Z.pos m) + 2 ^ (- e)) / 2 ^ (1 - e)) 0 s
  | _ => x
  end.

(** [Math.max(a, b)]: NaN if either argument is NaN, and +0 is larger
    than -0. *)
Definition max (a b : number) : number :=
  match SFcompare a b with
  | None => S754_nan
  | Some Lt => b
  | Some Gt => a
  | Some Eq => match a with S754_zero true => b | _ => a end
  end.

(** [xs.reduce((acc, x) => acc + x, 0)]. *)
Definition sum (xs : list number) : number := foldl add (ofZ 0) xs.

(** A number that is +0, -0, positive or +infinity: neither negative nor
    NaN. *)
Definition nonneg (x : number) : Prop :=
  match x with
  | S754_zero _ | S754_finite false _ _ | S754_infinity false => True
  | _ => False
  end.

End Num.

(* ===================================================================== *)
(** * Dates: the day and calendar arithmetic of ECMAScript (21.4.1) *)
(* ===================================================================== *)

Module JSDate.

(** The value held by a [Date] object: a time value or NaN. *)
Inductive Date : Type :=
  | DateValue (tv : Z)
  | InvalidDate.

Definition msPerDay : Z := 86400000.

Definition Day (t : Z) : Z := t / msPerDay.
Definition TimeWithinDay (t : Z) : Z := t mod msPerDay.

Definition DaysInYear (y : Z) : Z :=
  if negb (y mod 4 =? 0) then 365
  else if negb (y mod 100 =? 0) then 366
  else if negb (y mod 400 =? 0) then 365
  else 366.

Definition DayFromYear (y : Z) : Z :=
  365 * (y - 1970) + (y - 1969) / 4 - (y - 1901) / 100 + (y - 1601) / 400.

Definition TimeFromYear (y : Z) : Z := msPerDay * DayFromYear y.

(** ECMAScript defines [YearFromTime t] as the largest [y] with
    [TimeFromYear y <= t].  It is computed from an estimate by the mean
    length of a Gregorian year, 146097 / 400 days, which is off by at most
    one ([YearFromDay_spec] below). *)
Definition YearFromDay (d : Z) : Z :=
  let y := 1970 + (400 * d) / 146097 in
  if DayFromYear (y + 1) <=? d then y + 1
  else if DayFromYear y <=? d then y
  else y - 1.

Definition YearFromTime (t : Z) : Z := YearFromDay (Day t).

Definition InLeapYear (t : Z) : Z :=
  if DaysInYear (YearFromTime t) =? 366 then 1 else 0.

Definition DayWithinYear (t : Z) : Z := Day t - DayFromYear (YearFromTime t).

Definition MonthFromTime (t : Z) : Z :=
  let d := DayWithinYear t in
  let l := InLeapYear t in
  if d <? 31 then 0
  else if d <? 59 + l then 1
  else if d <? 90 + l then 2
  else if d <? 120 + l then 3
  else if d <? 151 + l then 4
  else if d <? 181 + l then 5
  else if d <? 212 + l then 6
  else if d <? 243 + l then 7
  else if d <? 273 + l then 8
  else if d <? 304 + l then 9
  else if d <? 334 + l then 10
  else 11.

Definition DateFromTime (t : Z) : Z :=
  let d := DayWithinYear t in
  let l := InLeapYear t in
  match MonthFromTime t with
  | 0 => d + 1
  | 1 => d - 30
  | 2 => d - 58 - l
  | 3 => d - 89 - l
  | 4 => d - 119 - l
  | 5 => d - 150 - l
  | 6 => d - 180 - l
  | 7 => d - 211 - l
  | 8 => d - 242 - l
  | 9 => d - 272 - l
  | 10 => d - 303 - l
  | _ => d - 333 - l
  end.

(** Number of days of year [y] before its month [mn] (0 = January). *)
Definition DaysBeforeMonth (y mn : Z) : Z :=
  let l := if DaysInYear y =? 366 then 1 else 0 in
  match mn with
  | 0 => 0
  | 1 => 31
  | 2 => 59 + l
  | 3 => 90 + l
  | 4 => 120 + l
  | 5 => 151 + l
  | 6 => 181 + l
  | 7 => 212 + l
  | 8 => 243 + l
  | 9 => 273 + l
  | 10 => 304 + l
  | _ => 334 + l
  end.

Definition DaysInMonth (y mn : Z) : Z :=
  match mn with
  | 1 => if DaysInYear y =? 366 then 29 else 28
  | 3 | 5 | 8 | 10 => 30
  | _ => 31
  end.

(** [MakeDay year month date]: the day number of the first day of month
    [month mod 12] of year [year + floor (month / 12)], plus [date - 1].
    Nothing bounds [date] by the length of the month. *)
Definition MakeDay (year month date : Z) : Z :=
  let ym := year + month / 12 in
  let mn := month mod 12 in
  DayFromYear ym + DaysBeforeMonth ym mn + date - 1.

Definition MakeDate (day time : Z) : Z := day * msPerDay + time.

Definition TimeClip (t : Z) : Date :=
  if 8640000000000000 <? Z.abs t then InvalidDate else DateValue t.

(** [a > b] on two dates compares their time values as numbers: false as
    soon as one of them is NaN. *)
Definition gt (a b : Date) : bool :=
  match a, b with
  | DateValue x, DateValue y => y <? x
  | _, _ => false
  end.

Section LocalTime.

(** The offset of local time from UTC, in milliseconds (a zone without
    daylight saving changes; 0 on a server running in UTC). *)
Variable LocalTZA : Z.

Definition LocalTime (t : Z) : Z := t + LocalTZA.
Definition UTC (t : Z) : Z := t - LocalTZA.

Definition getFullYear (t : Z) : Z := YearFromTime (LocalTime t).
Definition getMonth (t : Z) : Z := MonthFromTime (LocalTime t).
Definition getDate (t : Z) : Z := DateFromTime (LocalTime t).

(** [d.setDate(dt)], [d.setMonth(month)] and [d.setFullYear(year)] on a
    date [d] with the finite time value [t]: the new value of [d]. *)
Definition setDate (t dt : Z) : Date :=
  let lt := LocalTime t in
  TimeClip (UTC (MakeDate (MakeDay (YearFromTime lt) (MonthFromTime lt) dt)
                          (TimeWithinDay lt))).

Definition setMonth (t month : Z) : Date :=
  let lt := LocalTime t in
  TimeClip (UTC (MakeDate (MakeDay (YearFromTime lt) month (DateFromTime lt))
                          (TimeWithinDay lt))).

Definition setFullYear (t year : Z) : Date :=
  let lt := LocalTime t in
  TimeClip (UTC (MakeDate (MakeDay year (MonthFromTime lt) (DateFromTime lt))
                          (TimeWithinDay lt))).

End LocalTime.

(** The time value of midnight UTC of a calendar date ([month] from 1). *)
Definition utcMidnight (year month date : Z) : Z :=
  MakeDate (MakeDay year (month - 1) date) 0.

End JSDate.

(** An [ObjectId], as the string that [toString()] returns. *)
Definition ObjectId : Type := string.

(** The outcome of a [pre('save')] hook: [next()] lets the save proceed
    with the document as the hook left it, [next(err)] aborts it. *)
Inductive HookResult (A : Type) : Type :=
  | Next (doc : A)
  | NextError (err : string).
Arguments Next {A} doc.
Arguments NextError {A} err.

(** [Math.ceil (a / b)] for an integer [a] and a positive integer [b]. *)
Definition ceilDiv (a b : Z) : Z := - ((- a) / b).

(* ===================================================================== *)
(** * Budget (src/models/Budget.ts) *)
(* ===================================================================== *)

Module Budget.

Import Num.

Inductive Status : Type := active | completed | exceeded | paused | cancelled.

Definition Status_eqb (a b : Status) : bool :=
  match a, b with
  | active, active | completed, completed | exceeded, exceeded
  | paused, paused | cancelled, cancelled => true
  | _, _ => false
  end.

Record Stats : Type := {
  spentAmount : number;
  remainingAmount : number;
  percentageUsed : number;
  daysRemaining : Z;
  averageDailySpent : number;
  lastUpdated : Z
}.

(** The fields of [IBudget] that the computations read or write; [endDate]
    and [startDate] are required [Date] paths, held as time values. *)
Record Budget : Type := {
  amount : number;
  startDate : Z;
  endDate : Z;
  alertThreshold : number;
  stats : Stats;
  status : Status
}.

Definition set_stats (b : Budget) (s : Stats) : Budget :=
  {| amount := amount b; startDate := startDate b; endDate := endDate b;
     alertThreshold := alertThreshold b; stats := s; status := status b |}.

Definition set_status (b : Budget) (s : Status) : Budget :=
  {| amount := amount b; startDate := startDate b; endDate := endDate b;
     alertThreshold := alertThreshold b; stats := stats b; status := s |}.

(** The schema validators of [stats.percentageUsed]: [min: 0, max: 100]. *)
Definition percentageUsed_min : number := ofZ 0.
Definition percentageUsed_max : number := ofZ 100.
Definition percentageUsed_valid (v : number) : bool :=
  ge v percentageUsed_min && le v percentageUsed_max.

(** The schema validator of [amount]: [min: 0.01]. *)
Definition amount_valid (v : number) : bool := ge v (div (ofZ 1) (ofZ 100)).

(** Virtual fields. *)
Definition isExpired (now : Z) (b : Budget) : bool := endDate b <? now.

Definition isOverBudget (b : Budget) : bool :=
  gt (spentAmount (stats b)) (amount b).

Definition daysElapsed (now : Z) (b : Budget) : Z :=
  let diffTime := Z.abs (now - startDate b) in
  ceilDiv diffTime (1000 * 60 * 60 * 24).

(** [calculateStats], given the rows [expenses] that the aggregation
    returns (the [totalSpent] of each row). *)
Definition calculateStats (now : Z) (expenses : list number) (b : Budget)
  : Budget :=
  let spent := match expenses with r :: _ => r | [] => ofZ 0 end in
  let remaining := max (ofZ 0) (sub (amount b) spent) in
  let percentage := mul (div spent (amount b)) (ofZ 100) in
  let diffTime := endDate b - now in
  let remainingDays := Z.max 0 (ceilDiv diffTime (1000 * 60 * 60 * 24)) in
  let elapsed := daysElapsed now b in
  let average := if 0 <? elapsed then div spent (ofZ elapsed) else ofZ 0 in
  set_stats b
    {| spentAmount := spent;
       remainingAmount := remaining;
       percentageUsed := percentage;
       daysRemaining := remainingDays;
       averageDailySpent := average;
       lastUpdated := now |}.

Definition updateStatus (now : Z) (b : Budget) : Budget :=
  match status b with
  | cancelled | paused => b
  | _ =>
      if isExpired now b then
        set_status b (if isOverBudget b then exceeded else completed)
      else if isOverBudget b then set_status b exceeded
      else set_status b active
  end.

Definition shouldAlert (b : Budget) : bool :=
  ge (percentageUsed (stats b)) (alertThreshold b)
  && Status_eqb (status b) active.

End Budget.

(* ===================================================================== *)
(** * Category (src/models/Budget.ts, second model of the file) *)
(* ===================================================================== *)

Module Category.

(** The fields of [ICategory] that the hook and the virtuals read; [userId]
    and [parentCategory] default to [null], here [None]. *)
Record Category : Type := {
  _id : ObjectId;
  userId : option ObjectId;
  parentCategory : option ObjectId;
  subcategories : list ObjectId
}.

(** Virtual fields. *)
Definition isSystemCategory (c : Category) : bool :=
  match userId c with None => true | Some _ => false end.

Definition hasSubcategories (c : Category) : bool :=
  (0 <? length (subcategories c))%nat.

(** The [pre('save')] hook: a category whose [parentCategory] equals its
    own [_id] is refused. *)
Definition preSave (c : Category) : HookResult Category :=
  match parentCategory c with
  | Some parent =>
      if String.eqb parent (_id c)
      then NextError "Category cannot be its own parent"
      else Next c
  | None => Next c
  end.

End Category.

(* ===================================================================== *)
(** * Expense (models/Expense) *)
(* ===================================================================== *)

Module Split.

(** An entry of [splitAmounts]. *)
Record t : Type := { userId : ObjectId; amount : Num.number }.

End Split.

Module Expense.

Import Num.

Inductive ExpenseType : Type := personal | group.
Inductive Frequency : Type := daily | weekly | monthly | yearly.

(** [frequency] has no [required] in the schema: it can be absent. *)
Record RecurringPattern : Type := {
  frequency : option Frequency;
  interval : Z;
  endDate : option Z;
  nextOccurrence : option JSDate.Date
}.

(** The fields of [IExpense] that the hook and [calculateNextOccurrence]
    read or write; an optional path is an [option].  [recurringPattern] is
    optional in [IExpense]; a document built from the schema always carries
    the nested path (with [interval] defaulting to 1 and the other fields
    absent), that is [Some] pattern. *)
Record Expense : Type := {
  amount : number;
  date : Z;
  type : ExpenseType;
  splitBetween : option (list ObjectId);
  splitAmounts : option (list Split.t);
  isRecurring : bool;
  recurringPattern : option RecurringPattern
}.

Definition set_splitAmounts (e : Expense) (s : option (list Split.t))
  : Expense :=
  {| amount := amount e; date := date e; type := type e;
     splitBetween := splitBetween e; splitAmounts := s;
     isRecurring := isRecurring e; recurringPattern := recurringPattern e |}.

Definition set_isRecurring (e : Expense) (r : bool) : Expense :=
  {| amount := amount e; date := date e; type := type e;
     splitBetween := splitBetween e; splitAmounts := splitAmounts e;
     isRecurring := r; recurringPattern := recurringPattern e |}.

Definition set_recurringPattern (e : Expense) (p : RecurringPattern)
  : Expense :=
  {| amount := amount e; date := date e; type := type e;
     splitBetween := splitBetween e; splitAmounts := splitAmounts e;
     isRecurring := isRecurring e; recurringPattern := Some p |}.

Definition set_nextOccurrence (p : RecurringPattern)
  (d : option JSDate.Date) : RecurringPattern :=
  {| frequency := frequency p; interval := interval p;
     endDate := endDate p; nextOccurrence := d |}.

(** The numeric validators of the schema: [amount] in
    [0.01, 999999999.99], every [splitAmounts.amount] at least 0, and
    [recurringPattern.interval] at least 1. *)
Definition validate (e : Expense) : bool :=
  ge (amount e) (div (ofZ 1) (ofZ 100))
  && le (amount e) (div (ofZ 99999999999) (ofZ 100))
  && forallb (fun s => ge (Split.amount s) (ofZ 0))
       (default [] (splitAmounts e))
  && match recurringPattern e with
     | Some p => 1 <=? interval p
     | None => true
     end.

(** An assignment to a path of type [Date] of the document,
    [this.recurringPattern.nextOccurrence = value]: the path casts the
    value, and the cast refuses an invalid date.  The path then keeps the
    value it had ([old]); the document also records a cast error for the
    path in its validation state, which is not among the fields above. *)
Definition assignDate (old : option JSDate.Date) (value : JSDate.Date)
  : option JSDate.Date :=
  match value with
  | JSDate.DateValue _ => Some value
  | JSDate.InvalidDate => old
  end.

Section LocalTime.

Variable LocalTZA : Z.

(** The date that the [switch] of [calculateNextOccurrence] leaves in
    [nextDate]: a copy of the expense date, advanced by the setter of the
    frequency; no [case] applies when the frequency is absent. *)
Definition nextDate (currentDate : Z) (frequency : option Frequency)
  (interval : Z) : JSDate.Date :=
  match frequency with
  | Some daily =>
      JSDate.setDate LocalTZA currentDate
        (JSDate.getDate LocalTZA currentDate + interval)
  | Some weekly =>
      JSDate.setDate LocalTZA currentDate
        (JSDate.getDate LocalTZA currentDate + interval * 7)
  | Some monthly =>
      JSDate.setMonth LocalTZA currentDate
        (JSDate.getMonth LocalTZA currentDate + interval)
  | Some yearly =>
      JSDate.setFullYear LocalTZA currentDate
        (JSDate.getFullYear LocalTZA currentDate + interval)
  | None => JSDate.DateValue currentDate
  end.

Definition calculateNextOccurrence (e : Expense) : Expense :=
  match recurringPattern e with
  | None => e
  | Some p =>
      let next := nextDate (date e) (frequency p) (interval p) in
      let pastEnd :=
        match endDate p with
        | Some endD => JSDate.gt next (JSDate.DateValue endD)
        | None => false
        end in
      if pastEnd then
        set_recurringPattern (set_isRecurring e false)
          (set_nextOccurrence p None)
      else
        set_recurringPattern e
          (set_nextOccurrence p (assignDate (nextOccurrence p) next))
  end.

(** The equal split of the hook: every participant of [splitBetween] gets
    [Math.round(amountPerPerson * 100) / 100]. *)
Definition equalSplit (amount : number) (splitBetween : list ObjectId)
  : list Split.t :=
  let amountPerPerson := div amount (ofZ (Z.of_nat (length splitBetween))) in
  map (fun userId =>
         {| Split.userId := userId;
            Split.amount :=
              div (round (mul amountPerPerson (ofZ 100))) (ofZ 100) |})
      splitBetween.

(** The first [pre('save')] hook. *)
Definition preSave (e : Expense) : HookResult Expense :=
  let e1 :=
    match type e, splitBetween e with
    | group, Some ((_ :: _) as between) =>
        match splitAmounts e with
        | None | Some [] =>
            set_splitAmounts e (Some (equalSplit (amount e) between))
        | Some (_ :: _) => e
        end
    | _, _ => e
    end in
  let e2 :=
    match isRecurring e1, recurringPattern e1 with
    | true, Some _ => calculateNextOccurrence e1
    | _, _ => e1
    end in
  Next e2.

End LocalTime.

End Expense.

(* ===================================================================== *)
(** * Group (models/Group) *)
(* ===================================================================== *)

Module Group.

Inductive Role : Type := admin | member.

Definition Role_eqb (a b : Role) : bool :=
  match a, b with
  | admin, admin | member, member => true
  | _, _ => false
  end.

Record Member : Type := {
  userId : ObjectId;
  role : Role;
  joinedAt : Z;
  isActive : bool
}.

(** The fields of [IGroup] that the methods and the hook read or write;
    [statsMemberCount] is [stats.memberCount]. *)
Record Group : Type := {
  members : list Member;
  statsMemberCount : nat;
  isNew : bool;
  inviteCode : option string
}.

Definition set_members (g : Group) (ms : list Member) : Group :=
  {| members := ms; statsMemberCount := statsMemberCount g;
     isNew := isNew g; inviteCode := inviteCode g |}.

(** Virtual fields. *)
Definition activeMembers (g : Group) : list Member :=
  List.filter (fun m => isActive m) (members g).

Definition adminMembers (g : Group) : list Member :=
  List.filter (fun m => Role_eqb (role m) admin && isActive m) (members g).

Definition memberCount (g : Group) : nat := length (activeMembers g).

(** The first [pre('save')] hook; [code] is what [generateInviteCode]
    draws ([!this.inviteCode] also holds for the empty string). *)
Definition preSave (code : string) (g : Group) : HookResult Group :=
  let noCode :=
    match inviteCode g with
    | None => true
    | Some c => String.eqb c ""
    end in
  Next {| members := members g;
          statsMemberCount := length (activeMembers g);
          isNew := isNew g;
          inviteCode := if isNew g && noCode then Some code
                        else inviteCode g |}.

(** [member.userId.toString() === userId.toString()]. *)
Definition hasUserId (userId : ObjectId) (m : Member) : Prop :=
  Group.userId m = userId.

#[export] Instance hasUserId_dec userId m : Decision (hasUserId userId m).
Proof. unfold hasUserId. apply _. Defined.

Definition reactivate (now : Z) (m : Member) : Member :=
  {| userId := userId m; role := role m; joinedAt := now; isActive := true |}.

Definition deactivate (m : Member) : Member :=
  {| userId := userId m; role := role m; joinedAt := joinedAt m;
     isActive := false |}.

(** [addMember]: the updated group and the member object returned.
    [find] yields the first record of the user, if any. *)
Definition addMember (now : Z) (userId : ObjectId) (role : Role) (g : Group)
  : Group * Member :=
  match list_find (hasUserId userId) (members g) with
  | Some (i, existingMember) =>
      if isActive existingMember then (g, existingMember)
      else
        let m := reactivate now existingMember in
        (set_members g (<[i := m]> (members g)), m)
  | None =>
      let newMember :=
        {| Group.userId := userId; Group.role := role;
           joinedAt := now; isActive := true |} in
      (set_members g (members g ++ [newMember]), newMember)
  end.

(** [removeMember]: the updated group and the boolean returned.
    [findIndex] yields the index of the first record of the user, or -1. *)
Definition removeMember (userId : ObjectId) (g : Group) : Group * bool :=
  match list_find (hasUserId userId) (members g) with
  | Some (memberIndex, m) =>
      (set_members g (<[memberIndex := deactivate m]> (members g)), true)
  | None => (g, false)
  end.

Definition isMember (userId : ObjectId) (g : Group) : bool :=
  existsb (fun m => bool_decide (hasUserId userId m) && isActive m)
    (members g).

Definition isAdmin (userId : ObjectId) (g : Group) : bool :=
  existsb (fun m => bool_decide (hasUserId userId m)
                    && Role_eqb (role m) admin && isActive m)
    (members g).

End Group.

(* ===================================================================== *)
(** * Properties *)
(* ===================================================================== *)

(** ** Comparisons and signs of numbers *)

Section Numbers.

Import Num.

Lemma le_not_gt (a b : number) : le a b = true → gt a b = false.
Proof. unfold le, gt, SFltb. by destruct (SFcompare b a) as [[]|]. Qed.

Lemma compare_not_NaN (a b : number) :
  isNaN a = false → isNaN b = false → is_Some (SFcompare a b).
Proof. destruct a, b; cbn; intros; try discriminate; by eexists. Qed.

(** On numbers other than NaN, "not greater" is "less or equal". *)
Lemma not_gt_le (a b : number) :
  isNaN a = false → isNaN b = false → gt a b = false → le a b = true.
Proof.
  intros Ha Hb. destruct (compare_not_NaN b a Hb Ha) as [c Hc].
  unfold le, gt, SFltb. rewrite Hc. by destruct c.
Qed.

Lemma ge_zero_nonneg (x : number) : ge x (ofZ 0) = true ↔ nonneg x.
Proof. destruct x as [[]|[]| |[] m e]; cbn; intuition discriminate. Qed.

Lemma ofZ_100 : ofZ 100 = S754_finite false 7036874417766400 (-46).
Proof. by vm_compute. Qed.

Lemma shr_1_nonneg (mrs : shr_record) : 0 ≤ shr_m mrs → 0 ≤ shr_m (shr_1 mrs).
Proof. destruct mrs as [[|[p|p|]|p] r s]; cbn; lia. Qed.

Lemma iter_shr_1_nonneg (p : positive) (mrs : shr_record) :
  0 ≤ shr_m mrs → 0 ≤ shr_m (SpecFloat.iter_pos shr_1 p mrs).
Proof.
  revert mrs. induction p as [p IH | p IH |]; intros mrs H; cbn.
  - apply IH, IH. by apply shr_1_nonneg.
  - by apply IH, IH.
  - by apply shr_1_nonneg.
Qed.

Lemma shr_fexp_nonneg (m e : Z) (l : location) :
  0 ≤ m → 0 ≤ shr_m (shr_fexp prec emax m e l).1.
Proof.
  intros Hm. unfold shr_fexp, shr.
  assert (0 ≤ shr_m (shr_record_of_loc m l)) by by destruct l as [|[]].
  destruct (_ - e) as [|p|p]; cbn; [done | | done].
  by apply iter_shr_1_nonneg.
Qed.

Lemma round_nearest_even_nonneg (m : Z) (l : location) :
  0 ≤ m → 0 ≤ round_nearest_even m l.
Proof.
  intros Hm. destruct l as [|[]]; cbn; [done | | done | lia].
  destruct (Z.even m); lia.
Qed.

(** Rounding a non-negative significand with a positive sign gives a zero,
    a positive number or +infinity, never NaN. *)
Lemma binary_round_aux_sign (mz ez : Z) (lz : location) :
  0 ≤ mz → nonneg (binary_round_aux prec emax false mz ez lz).
Proof.
  intros Hm. unfold binary_round_aux.
  pose proof (shr_fexp_nonneg mz ez lz Hm) as H1.
  destruct (shr_fexp prec emax mz ez lz) as [mrs' e'].
  pose proof (shr_fexp_nonneg _ e' loc_Exact
                (round_nearest_even_nonneg _ (loc_of_shr_record mrs') H1))
    as H2.
  destruct (shr_fexp prec emax _ e' loc_Exact) as [mrs'' e''].
  cbn in H2. destruct (shr_m mrs'') as [|p|p]; [done | | lia].
  by destruct (e'' <=? emax - prec).
Qed.

Lemma div_nonneg (x y : number) (my : positive) (ey : Z) :
  nonneg x → y = S754_finite false my ey → nonneg (div x y).
Proof.
  intros Hx ->. destruct x as [s|[]| |[] mx ex]; try done.
  unfold div, SFdiv.
  destruct (SFdiv_core_binary prec emax (Z.pos mx) ex (Z.pos my) ey)
    as [[mz ez] lz] eqn:Hcore.
  apply binary_round_aux_sign.
  unfold SFdiv_core_binary in Hcore.
  set (m' := match _ - _ - _ with Z0 => _ | Z.pos _ => _ | Z.neg _ => _ end)
    in Hcore.
  assert (0 ≤ m') as Hm'.
  { subst m'. destruct (_ - _ - _); [lia | | lia]. by apply Z.shiftl_nonneg. }
  pose proof (Z.div_pos m' (Z.pos my) Hm' ltac:(lia)) as Hq.
  unfold Z.div in Hq. destruct (Z.div_eucl m' (Z.pos my)) as [q r].
  inversion Hcore; subst. exact Hq.
Qed.

Lemma mul_nonneg (x y : number) (my : positive) (ey : Z) :
  nonneg x → y = S754_finite false my ey → nonneg (mul x y).
Proof.
  intros Hx ->. destruct x as [s|[]| |[] mx ex]; try done.
  unfold mul, SFmul. apply binary_round_aux_sign. lia.
Qed.

End Numbers.

(** ** Ceiling division *)

Lemma ceilDiv_spec (a b : Z) :
  0 < b → b * (ceilDiv a b - 1) < a ≤ b * ceilDiv a b.
Proof.
  intros Hb. unfold ceilDiv.
  pose proof (Z.div_mod (- a) b) as Hdm.
  pose proof (Z.mod_pos_bound (- a) b Hb). lia.
Qed.

Lemma ceilDiv_unique (a b q : Z) :
  0 < b → b * (q - 1) < a ≤ b * q → ceilDiv a b = q.
Proof. intros Hb Hq. pose proof (ceilDiv_spec a b Hb). nia. Qed.

Example ceilDiv_examples :
  ceilDiv 0 86400000 = 0 ∧ ceilDiv 1 86400000 = 1
  ∧ ceilDiv 86400000 86400000 = 1 ∧ ceilDiv 86400001 86400000 = 2
  ∧ ceilDiv (-1) 86400000 = 0 ∧ ceilDiv (-86400001) 86400000 = -1.
Proof. by vm_compute. Qed.

(* ===================================================================== *)
(** ** Budget: status, percentage, elapsed days *)
(* ===================================================================== *)

Section BudgetProperties.

Import Num Budget.

Lemma msPerDay_literal : 1000 * 60 * 60 * 24 = JSDate.msPerDay.
Proof. reflexivity. Qed.

Lemma calculateStats_status now expenses b :
  status (calculateStats now expenses b) = status b.
Proof. reflexivity. Qed.

Lemma calculateStats_spentAmount now expenses b :
  spentAmount (stats (calculateStats now expenses b))
  = match expenses with r :: _ => r | [] => ofZ 0 end.
Proof. reflexivity. Qed.

Lemma calculateStats_percentageUsed now expenses b :
  percentageUsed (stats (calculateStats now expenses b))
  = mul (div (spentAmount (stats (calculateStats now expenses b))) (amount b))
      (ofZ 100).
Proof. reflexivity. Qed.

Lemma calculateStats_averageDailySpent now expenses b :
  averageDailySpent (stats (calculateStats now expenses b))
  = if 0 <? daysElapsed now b
    then div (spentAmount (stats (calculateStats now expenses b)))
           (ofZ (daysElapsed now b))
    else ofZ 0.
Proof. reflexivity. Qed.

Example updateStatus_examples :
  let mk spent st :=
    {| amount := ofZ 200; startDate := JSDate.utcMidnight 2024 3 1;
       endDate := JSDate.utcMidnight 2024 3 31; alertThreshold := ofZ 80;
       stats := {| spentAmount := ofZ spent; remainingAmount := ofZ 0;
                   percentageUsed := ofZ 0; daysRemaining := 0;
                   averageDailySpent := ofZ 0; lastUpdated := 0 |};
       status := st |} in
  let during := JSDate.utcMidnight 2024 3 15 in
  let after := JSDate.utcMidnight 2024 4 2 in
  status (updateStatus during (mk 150 exceeded)) = active
  ∧ status (updateStatus during (mk 250 active)) = exceeded
  ∧ status (updateStatus after (mk 200 active)) = completed
  ∧ status (updateStatus after (mk 250 active)) = exceeded
  ∧ status (updateStatus after (mk 250 paused)) = paused
  ∧ status (updateStatus during (mk 250 cancelled)) = cancelled.
Proof. by vm_compute. Qed.

(** C2.  Status derivation.  For a budget whose status is neither [paused]
    nor [cancelled], [updateStatus] at time [now] sets the status to
    [exceeded] when [now > endDate] and [spentAmount > amount], to
    [completed] when [now > endDate] and [spentAmount <= amount], to
    [exceeded] when [now <= endDate] and [spentAmount > amount], and to
    [active] otherwise, that is when [now <= endDate] and [spentAmount] is
    not greater than [amount] (for numbers other than NaN, "not greater" is
    "less or equal", so the four cases cover everything).  A [paused] or
    [cancelled] budget is returned as it is, whatever the time and the
    spending, and recomputing the statistics does not touch the status
    either. *)
Theorem updateStatus_derivation (now : Z) (b : Budget) :
  let spent := spentAmount (stats b) in
  let b' := updateStatus now b in
  (status b ≠ paused → status b ≠ cancelled →
     (endDate b < now → gt spent (amount b) = true → status b' = exceeded)
     ∧ (endDate b < now → le spent (amount b) = true → status b' = completed)
     ∧ (now ≤ endDate b → gt spent (amount b) = true → status b' = exceeded)
     ∧ (now ≤ endDate b → gt spent (amount b) = false → status b' = active)
     ∧ (isNaN spent = false → isNaN (amount b) = false →
        gt spent (amount b) = false → le spent (amount b) = true))
  ∧ (status b = paused ∨ status b = cancelled →
     b' = b
     ∧ ∀ now' expenses,
         status (updateStatus now (calculateStats now' expenses b)) = status b
         ∧ status (calculateStats now' expenses (updateStatus now b))
           = status b).
Proof.
  cbn zeta. split.
  - intros Hp Hc. unfold updateStatus, isExpired, isOverBudget.
    split_and!.
    + intros Hexp%Z.ltb_lt Hover. rewrite Hexp, Hover. by destruct (status b).
    + intros Hexp%Z.ltb_lt Hle%le_not_gt. rewrite Hexp, Hle.
      by destruct (status b).
    + intros Hexp%Z.ltb_ge Hover. rewrite Hexp, Hover. by destruct (status b).
    + intros Hexp%Z.ltb_ge Hover. rewrite Hexp, Hover. by destruct (status b).
    + apply not_gt_le.
  - intros Hsticky.
    assert (∀ c, status c = status b → updateStatus now c = c) as Hkeep.
    { intros c Hc. unfold updateStatus. rewrite Hc.
      by destruct Hsticky as [-> | ->]. }
    split; [by apply Hkeep |]. intros now' expenses.
    rewrite !Hkeep by done. by rewrite !calculateStats_status.
Qed.

Lemma updateStatus_derivation_witness :
  let b := {| amount := ofZ 200; startDate := JSDate.utcMidnight 2024 3 1;
              endDate := JSDate.utcMidnight 2024 3 31;
              alertThreshold := ofZ 80;
              stats := {| spentAmount := ofZ 150; remainingAmount := ofZ 50;
                          percentageUsed := ofZ 75; daysRemaining := 0;
                          averageDailySpent := ofZ 0; lastUpdated := 0 |};
              status := active |} in
  status (updateStatus (JSDate.utcMidnight 2024 4 2) b) = completed
  ∧ updateStatus (JSDate.utcMidnight 2024 4 2) (set_status b paused)
    = set_status b paused.
Proof.
  intros b. split.
  - apply (proj1 (updateStatus_derivation (JSDate.utcMidnight 2024 4 2) b));
      [discriminate | discriminate | by vm_compute | by vm_compute].
  - apply (proj2 (updateStatus_derivation (JSDate.utcMidnight 2024 4 2)
                    (set_status b paused))).
    left. reflexivity.
Defined.

(** X19.  The percentage that [calculateStats] stores is
    [(spentAmount / amount) * 100]; for a positive finite [amount] and a
    non-negative total it is neither negative nor NaN, so it never falls
    below the schema minimum 0. *)
Lemma percentageUsed_nonneg (now : Z) (expenses : list number) (b : Budget)
  (m : positive) (e : Z) :
  amount b = S754_finite false m e →
  Forall (λ x, ge x (ofZ 0) = true) expenses →
  ge (percentageUsed (stats (calculateStats now expenses b))) (ofZ 0) = true.
Proof.
  intros Ha Hexp. apply ge_zero_nonneg.
  rewrite calculateStats_percentageUsed, calculateStats_spentAmount.
  eapply mul_nonneg; [| exact ofZ_100].
  eapply div_nonneg; [| exact Ha].
  destruct Hexp as [|x l Hx _]; [done |]. by apply ge_zero_nonneg.
Qed.

(** C6.  Percentage bound.  For [amount = 200] and a total spent of 250,
    [calculateStats] stores [percentageUsed = (250 / 200) * 100 = 125]:
    not negative, above 100, and the status derived from it is [exceeded].
    The schema of [stats.percentageUsed] declares [min: 0, max: 100], and
    its validator rejects the stored 125. *)
Theorem percentageUsed_above_schema_max :
  let b := {| amount := ofZ 200; startDate := JSDate.utcMidnight 2024 3 1;
              endDate := JSDate.utcMidnight 2024 3 31;
              alertThreshold := ofZ 80;
              stats := {| spentAmount := ofZ 0; remainingAmount := ofZ 0;
                          percentageUsed := ofZ 0; daysRemaining := 0;
                          averageDailySpent := ofZ 0; lastUpdated := 0 |};
              status := active |} in
  let now := JSDate.utcMidnight 2024 3 15 in
  let b' := calculateStats now [ofZ 250] b in
  amount_valid (amount b) = true
  ∧ percentageUsed (stats b') = ofZ 125
  ∧ gt (percentageUsed (stats b')) (ofZ 100) = true
  ∧ ge (percentageUsed (stats b')) (ofZ 0) = true
  ∧ percentageUsed_valid (percentageUsed (stats b')) = false
  ∧ status (updateStatus now b') = exceeded.
Proof. cbn zeta. split_and!; by vm_compute. Qed.

(** C7 (amended).  [daysElapsed] is the ceiling of the distance
    [|now - startDate|] in days: the least [d] with
    [|now - startDate| <= d * msPerDay].  It is never negative, it is 0
    only when [now] is exactly [startDate], it is
    [ceil ((now - startDate) / msPerDay)] from [startDate] on, and before
    [startDate] it is the positive number of days left until the start,
    [ceil ((startDate - now) / msPerDay)].  [averageDailySpent] is
    [spentAmount / daysElapsed] when [daysElapsed > 0] and 0 otherwise. *)
Theorem daysElapsed_is_distance (now : Z) (expenses : list number)
  (b : Budget) :
  let d := daysElapsed now b in
  let spent := spentAmount (stats (calculateStats now expenses b)) in
  (JSDate.msPerDay * (d - 1) < Z.abs (now - startDate b)
   ≤ JSDate.msPerDay * d)
  ∧ 0 ≤ d
  ∧ (d = 0 ↔ now = startDate b)
  ∧ (startDate b ≤ now → d = ceilDiv (now - startDate b) JSDate.msPerDay)
  ∧ (now < startDate b →
       0 < d ∧ d = ceilDiv (startDate b - now) JSDate.msPerDay)
  ∧ averageDailySpent (stats (calculateStats now expenses b))
    = (if 0 <? d then div spent (ofZ d) else ofZ 0).
Proof.
  cbn zeta. unfold daysElapsed at 1 2 3 4 5 6 7. rewrite msPerDay_literal.
  pose proof (ceilDiv_spec (Z.abs (now - startDate b)) JSDate.msPerDay) as Hc.
  unfold JSDate.msPerDay in *. specialize (Hc ltac:(lia)).
  split; [lia |]. split; [lia |]. split; [| split; [| split]].
  - split; intros H.
    + lia.
    + subst now. rewrite Z.sub_diag. reflexivity.
  - intros Hle. by rewrite Z.abs_eq by lia.
  - intros Hlt. split; [lia |]. f_equal. lia.
  - apply calculateStats_averageDailySpent.
Qed.

Lemma daysElapsed_is_distance_witness :
  let b := {| amount := ofZ 300; startDate := JSDate.utcMidnight 2024 3 10;
              endDate := JSDate.utcMidnight 2024 3 31;
              alertThreshold := ofZ 80;
              stats := {| spentAmount := ofZ 0; remainingAmount := ofZ 0;
                          percentageUsed := ofZ 0; daysRemaining := 0;
                          averageDailySpent := ofZ 0; lastUpdated := 0 |};
              status := active |} in
  daysElapsed (JSDate.utcMidnight 2024 3 13 + 1) b = 4
  ∧ 0 < daysElapsed (JSDate.utcMidnight 2024 3 8) b.
Proof.
  intros b.
  destruct (daysElapsed_is_distance (JSDate.utcMidnight 2024 3 13 + 1) [] b)
    as (_ & _ & _ & Hafter & _).
  destruct (daysElapsed_is_distance (JSDate.utcMidnight 2024 3 8) [] b)
    as (_ & _ & _ & _ & Hbefore & _).
  split.
  - rewrite Hafter; [reflexivity | by vm_compute].
  - apply Hbefore. reflexivity.
Defined.

(** C7, as stated, fails: two days before [startDate] the elapsed days are
    2, not 0, and a total of 50 gives [averageDailySpent = 25], not 0. *)
Lemma daysElapsed_before_start :
  let b := {| amount := ofZ 300; startDate := JSDate.utcMidnight 2024 3 10;
              endDate := JSDate.utcMidnight 2024 3 31;
              alertThreshold := ofZ 80;
              stats := {| spentAmount := ofZ 0; remainingAmount := ofZ 0;
                          percentageUsed := ofZ 0; daysRemaining := 0;
                          averageDailySpent := ofZ 0; lastUpdated := 0 |};
              status := active |} in
  let now := JSDate.utcMidnight 2024 3 8 in
  now < startDate b
  ∧ daysElapsed now b = 2
  ∧ averageDailySpent (stats (calculateStats now [ofZ 50] b)) = ofZ 25
  ∧ eq (averageDailySpent (stats (calculateStats now [ofZ 50] b))) (ofZ 0)
    = false.
Proof. cbn zeta. split_and!; by vm_compute. Qed.

End BudgetProperties.

(* ===================================================================== *)
(** ** The calendar *)
(* ===================================================================== *)

Section Calendar.

Import JSDate.

Example calendar_examples :
  utcMidnight 1970 1 1 = 0
  ∧ utcMidnight 2024 1 31 = 1706659200000
  ∧ utcMidnight 2024 2 29 = 1709164800000
  ∧ utcMidnight 2024 3 2 = 1709337600000
  ∧ (YearFromTime (-1), MonthFromTime (-1), DateFromTime (-1)) = (1969, 11, 31)
  ∧ (YearFromTime 1709164800000, MonthFromTime 1709164800000,
     DateFromTime 1709164800000) = (2024, 1, 29)
  ∧ MakeDay 2024 1 31 = MakeDay 2024 2 2
  ∧ MakeDay 2023 1 31 = MakeDay 2023 2 3
  ∧ MakeDay 2023 12 1 = MakeDay 2024 0 1
  ∧ TimeClip 8640000000000001 = InvalidDate.
Proof. by vm_compute. Qed.

Lemma DaysInYear_cases (y : Z) :
  (DaysInYear y = 366 ∧ y mod 4 = 0 ∧ (y mod 100 ≠ 0 ∨ y mod 400 = 0))
  ∨ (DaysInYear y = 365 ∧ (y mod 4 ≠ 0 ∨ (y mod 100 = 0 ∧ y mod 400 ≠ 0))).
Proof.
  unfold DaysInYear.
  destruct (Z.eqb_spec (y mod 4) 0), (Z.eqb_spec (y mod 100) 0),
    (Z.eqb_spec (y mod 400) 0); cbn; lia.
Qed.

Lemma DayFromYear_succ (y : Z) :
  DayFromYear (y + 1) = DayFromYear y + DaysInYear y.
Proof.
  destruct (DaysInYear_cases y) as [(-> & H)|(-> & H)];
    unfold DayFromYear; Z.to_euclidean_division_equations; lia.
Qed.

(** [YearFromDay d] is the year that contains day [d], and the only one:
    the largest [y] with [DayFromYear y <= d]. *)
Lemma YearFromDay_spec (d : Z) :
  DayFromYear (YearFromDay d) ≤ d < DayFromYear (YearFromDay d + 1).
Proof.
  unfold YearFromDay.
  set (y := 1970 + 400 * d / 146097).
  assert (DayFromYear (y - 1) ≤ d < DayFromYear (y + 2)) as Hest.
  { subst y. unfold DayFromYear. Z.to_euclidean_division_equations. lia. }
  destruct (Z.leb_spec (DayFromYear (y + 1)) d).
  - replace (y + 1 + 1) with (y + 2) by lia. lia.
  - destruct (Z.leb_spec (DayFromYear y) d).
    + lia.
    + replace (y - 1 + 1) with y by lia. lia.
Qed.

Lemma DayFromYear_mono (y y' : Z) : y ≤ y' → DayFromYear y ≤ DayFromYear y'.
Proof.
  intros H. unfold DayFromYear. Z.to_euclidean_division_equations. lia.
Qed.

Lemma YearFromDay_unique (d y : Z) :
  DayFromYear y ≤ d < DayFromYear (y + 1) → YearFromDay d = y.
Proof.
  intros Hy. pose proof (YearFromDay_spec d) as Hs.
  destruct (Z.lt_trichotomy (YearFromDay d) y) as [Hlt | [Heq | Hgt]]; [| done |].
  - pose proof (DayFromYear_mono (YearFromDay d + 1) y ltac:(lia)). lia.
  - pose proof (DayFromYear_mono (y + 1) (YearFromDay d) ltac:(lia)). lia.
Qed.


Lemma DayWithinYear_range (t : Z) :
  0 ≤ DayWithinYear t < DaysInYear (YearFromTime t).
Proof.
  unfold DayWithinYear, YearFromTime.
  pose proof (YearFromDay_spec (Day t)) as Hs.
  rewrite DayFromYear_succ in Hs. lia.
Qed.

Lemma Day_MakeDate (day time : Z) :
  0 ≤ time < msPerDay →
  Day (MakeDate day time) = day ∧ TimeWithinDay (MakeDate day time) = time.
Proof.
  intros Ht. unfold Day, TimeWithinDay, MakeDate, msPerDay in *.
  Z.to_euclidean_division_equations. lia.
Qed.

Lemma MakeDate_Day (t : Z) : MakeDate (Day t) (TimeWithinDay t) = t.
Proof.
  unfold Day, TimeWithinDay, MakeDate, msPerDay.
  Z.to_euclidean_division_equations. lia.
Qed.

Lemma MakeDate_lt (day day' time : Z) :
  day < day' → MakeDate day time < MakeDate day' time.
Proof. unfold MakeDate, msPerDay. lia. Qed.

Lemma TimeWithinDay_range (t : Z) : 0 ≤ TimeWithinDay t < msPerDay.
Proof. unfold TimeWithinDay, msPerDay. apply Z.mod_pos_bound. lia. Qed.

Ltac case_ltb :=
  repeat match goal with
         | |- context [?a <? ?b] => destruct (Z.ltb_spec a b)
         end.

Lemma MonthFromTime_range (t : Z) : 0 ≤ MonthFromTime t ≤ 11.
Proof. unfold MonthFromTime. case_ltb; lia. Qed.

Lemma MakeDay_normal (y mn dt : Z) :
  0 ≤ mn ≤ 11 →
  MakeDay y mn dt = DayFromYear y + DaysBeforeMonth y mn + dt - 1.
Proof.
  intros Hmn. unfold MakeDay.
  rewrite Z.div_small, Z.mod_small, Z.add_0_r by lia. reflexivity.
Qed.

Lemma leap_flag (y : Z) :
  (DaysInYear y = 366 ∧ (DaysInYear y =? 366) = true)
  ∨ (DaysInYear y = 365 ∧ (DaysInYear y =? 366) = false).
Proof. destruct (DaysInYear_cases y) as [(-> & _)|(-> & _)]; auto. Qed.

(** Every time value is the date it reads as: month in 0..11, day of the
    month within the month, and [MakeDay] of them gives back the day. *)
Lemma civil_of_time (t : Z) :
  0 ≤ MonthFromTime t ≤ 11
  ∧ 1 ≤ DateFromTime t ≤ DaysInMonth (YearFromTime t) (MonthFromTime t)
  ∧ MakeDay (YearFromTime t) (MonthFromTime t) (DateFromTime t) = Day t.
Proof.
  split; [apply MonthFromTime_range |].
  rewrite MakeDay_normal by apply MonthFromTime_range.
  pose proof (DayWithinYear_range t) as Hr.
  unfold DateFromTime, MonthFromTime, DaysBeforeMonth, DaysInMonth, InLeapYear.
  unfold DayWithinYear in *.
  set (y := YearFromTime t) in *. set (d := Day t) in *.
  destruct (leap_flag y) as [(Hy & ->)|(Hy & ->)]; rewrite Hy in Hr;
    case_ltb; lia.
Qed.

Ltac month_cases mn :=
  let H := fresh "Hm" in
  assert (mn = 0 ∨ mn = 1 ∨ mn = 2 ∨ mn = 3 ∨ mn = 4 ∨ mn = 5 ∨ mn = 6
          ∨ mn = 7 ∨ mn = 8 ∨ mn = 9 ∨ mn = 10 ∨ mn = 11) as H by lia;
  repeat (destruct H as [H | H]); subst mn.

(** Conversely, a date within its month reads back as itself. *)
Lemma time_of_civil (y mn dt time : Z) :
  0 ≤ mn ≤ 11 → 1 ≤ dt ≤ DaysInMonth y mn → 0 ≤ time < msPerDay →
  let t := MakeDate (MakeDay y mn dt) time in
  YearFromTime t = y ∧ MonthFromTime t = mn ∧ DateFromTime t = dt
  ∧ TimeWithinDay t = time.
Proof.
  intros Hmn Hdt Htime t.
  destruct (Day_MakeDate (MakeDay y mn dt) time Htime) as [Hday Htwd].
  fold t in Hday, Htwd. clearbody t.
  rewrite MakeDay_normal in Hday by done.
  assert (YearFromTime t = y) as Hyear.
  { unfold YearFromTime. apply YearFromDay_unique.
    rewrite Hday, DayFromYear_succ.
    unfold DaysBeforeMonth, DaysInMonth in *.
    destruct (leap_flag y) as [(Hy & Hl)|(Hy & Hl)]; rewrite Hl, ?Hy in *;
      month_cases mn; lia. }
  assert (MonthFromTime t = mn) as Hmonth.
  { unfold MonthFromTime, InLeapYear, DayWithinYear. rewrite Hyear, Hday.
    unfold DaysBeforeMonth, DaysInMonth in *.
    destruct (leap_flag y) as [(Hy & Hl)|(Hy & Hl)]; rewrite Hl in *;
      month_cases mn; case_ltb; lia. }
  split; [done |]. split; [done |]. split; [| done].
  unfold DateFromTime. rewrite Hmonth. clear Hmonth.
  unfold InLeapYear, DayWithinYear. rewrite Hyear, Hday.
  unfold DaysBeforeMonth.
  destruct (leap_flag y) as [(Hy & Hl)|(Hy & Hl)]; rewrite Hl in *;
    month_cases mn; lia.
Qed.

(** A day past the end of a month is a day of the next month. *)
Lemma MakeDay_next_month (year month dt : Z) :
  MakeDay year month (DaysInMonth (year + month / 12) (month mod 12) + dt)
  = MakeDay year (month + 1) dt.
Proof.
  unfold MakeDay.
  pose proof (Z.mod_pos_bound month 12 ltac:(lia)) as Hmn.
  destruct (decide (month mod 12 = 11)) as [H11 | Hne].
  - assert ((month + 1) / 12 = month / 12 + 1) as ->
      by (Z.to_euclidean_division_equations; lia).
    assert ((month + 1) mod 12 = 0) as ->
      by (Z.to_euclidean_division_equations; lia).
    replace (year + (month / 12 + 1)) with (year + month / 12 + 1) by lia.
    rewrite H11, DayFromYear_succ.
    unfold DaysBeforeMonth, DaysInMonth.
    destruct (leap_flag (year + month / 12)) as [(Hy & ->)|(Hy & ->)]; lia.
  - assert ((month + 1) / 12 = month / 12) as ->
      by (Z.to_euclidean_division_equations; lia).
    assert ((month + 1) mod 12 = month mod 12 + 1) as ->
      by (Z.to_euclidean_division_equations; lia).
    set (mn := month mod 12) in *. set (ym := year + month / 12).
    clearbody mn ym.
    unfold DaysBeforeMonth, DaysInMonth.
    destruct (leap_flag ym) as [(Hy & ->)|(Hy & ->)];
      month_cases mn;
      match goal with
      | |- context [match ?e with _ => _ end] =>
          let v := eval vm_compute in e in change e with v
      end; cbv beta iota; lia.
Qed.


Lemma DaysInMonth_range (y mn : Z) : 28 ≤ DaysInMonth y mn ≤ 31.
Proof.
  unfold DaysInMonth. destruct (DaysInYear y =? 366);
    repeat (destruct mn as [|[mn|mn|]|]; try lia).
Qed.

Lemma MakeDay_norm (year month dt : Z) :
  MakeDay year month dt = MakeDay (year + month / 12) (month mod 12) dt.
Proof.
  pose proof (Z.mod_pos_bound month 12 ltac:(lia)).
  rewrite (MakeDay_normal (year + month / 12)) by lia. reflexivity.
Qed.

Lemma MakeDay_date (year month dt k : Z) :
  MakeDay year month (k + dt) = MakeDay year month dt + k.
Proof. unfold MakeDay. lia. Qed.

(** Advancing the month by [k >= 0] advances the day by at least [28 k]. *)
Lemma MakeDay_month_advance (year month dt k : Z) :
  0 ≤ k → MakeDay year month dt + 28 * k ≤ MakeDay year (month + k) dt.
Proof.
  intros Hk. revert k Hk. apply natlike_ind.
  - replace (month + 0) with month by lia. lia.
  - intros k Hk IH.
    replace (month + Z.succ k) with (month + k + 1) by lia.
    rewrite <- MakeDay_next_month, MakeDay_date.
    pose proof (DaysInMonth_range (year + (month + k) / 12)
                  ((month + k) mod 12)). lia.
Qed.

End Calendar.

(* ===================================================================== *)
(** ** Expense: the next occurrence of a monthly recurrence *)
(* ===================================================================== *)

Section Recurrence.

Import JSDate Expense.

Lemma TimeClip_DateValue (t t' : Z) : TimeClip t = DateValue t' → t' = t.
Proof. unfold TimeClip. destruct (_ <? _); congruence. Qed.

Lemma gt_DateValue (a b : Z) : gt (DateValue a) (DateValue b) = true ↔ b < a.
Proof. cbn. apply Z.ltb_lt. Qed.


Lemma nextDate_monthly (tza t k : Z) :
  nextDate tza t (Some monthly) k = setMonth tza t (getMonth tza t + k).
Proof. reflexivity. Qed.





End Recurrence.

(* ===================================================================== *)
(** ** Expense: the save hook and the end of a recurrence *)
(* ===================================================================== *)

Section ExpenseHook.

Import Num Expense.

Implicit Types (tza : Z) (e : Expense).

Lemma calculateNextOccurrence_splitAmounts tza e :
  splitAmounts (calculateNextOccurrence tza e) = splitAmounts e.
Proof.
  unfold calculateNextOccurrence.
  destruct (recurringPattern e) as [p|]; [| done].
  by destruct (match endDate p with Some _ => _ | None => _ end).
Qed.

(** The hook never aborts the save. *)
Lemma preSave_is_Next tza e : ∃ e', preSave tza e = Next e'.
Proof. unfold preSave. by eexists. Qed.

(** What the hook leaves in [splitAmounts]. *)
Lemma preSave_splitAmounts tza e e' :
  preSave tza e = Next e' →
  splitAmounts e'
  = match type e, splitBetween e, splitAmounts e with
    | group, Some ((_ :: _) as between), (None | Some []) =>
        Some (equalSplit (amount e) between)
    | _, _, _ => splitAmounts e
    end.
Proof.
  unfold preSave. intros [= <-].
  set (e1 := match type e with group => _ | _ => _ end).
  assert (splitAmounts
            (match isRecurring e1, recurringPattern e1 with
             | true, Some _ => calculateNextOccurrence tza e1
             | _, _ => e1
             end) = splitAmounts e1) as ->.
  { destruct (isRecurring e1), (recurringPattern e1);
      auto using calculateNextOccurrence_splitAmounts. }
  subst e1. destruct (type e); [reflexivity |].
  destruct (splitBetween e) as [[|u between]|]; [done | | done].
  destruct (splitAmounts e) as [[|s l]|] eqn:Hsa; cbn; by rewrite ?Hsa.
Qed.

(** C1 (amended).  For a group expense with a non-empty [splitBetween] and
    no [splitAmounts], the hook lets the save proceed with one entry per
    participant, in the order of [splitBetween], each holding the same
    share [Math.round ((amount / count) * 100) / 100].  Nothing is done
    with the rounding remainder, so the shares need not add up to
    [amount]. *)
Theorem equalSplit_same_share (tza : Z) (e : Expense)
  (between : list ObjectId) :
  type e = group → splitBetween e = Some between → between ≠ [] →
  splitAmounts e = None ∨ splitAmounts e = Some [] →
  let share :=
    div (round (mul (div (amount e) (ofZ (Z.of_nat (length between))))
                    (ofZ 100)))
        (ofZ 100) in
  ∃ e' shares,
    preSave tza e = Next e'
    ∧ splitAmounts e' = Some shares
    ∧ Split.userId <$> shares = between
    ∧ Split.amount <$> shares = replicate (length between) share.
Proof.
  intros Hty Hsb Hne Hsa share.
  destruct (preSave_is_Next tza e) as [e' He']. exists e'.
  exists (equalSplit (amount e) between).
  split; [done |]. split.
  - rewrite (preSave_splitAmounts tza e e' He'), Hty, Hsb.
    destruct between as [|u between]; [done |].
    by destruct Hsa as [-> | ->].
  - unfold equalSplit. fold share. clear. split.
    + rewrite <- list_fmap_compose. apply list_fmap_id.
    + generalize share. intros s. rewrite <- list_fmap_compose.
      induction between as [|u l IH]; [done |]. cbn. by rewrite IH.
Qed.


Lemma equalSplit_same_share_witness :
  let e := {| amount := ofZ 90; date := JSDate.utcMidnight 2024 1 31;
              type := group; splitBetween := Some ["u1"; "u2"; "u3"];
              splitAmounts := None; isRecurring := false;
              recurringPattern := None |} in
  ∃ e' shares,
    preSave 0 e = Next e'
    ∧ splitAmounts e' = Some shares
    ∧ Split.userId <$> shares = ["u1"; "u2"; "u3"]
    ∧ Split.amount <$> shares = [ofZ 30; ofZ 30; ofZ 30].
Proof.
  intros e.
  apply (equalSplit_same_share 0 e ["u1"; "u2"; "u3"]).
  - reflexivity.
  - reflexivity.
  - discriminate.
  - left. reflexivity.
Defined.

(** C1, as stated, fails: 100 split three ways gives 33.33 to each of the
    three participants, the first included, and the shares add up to 99.99,
    not to 100. *)
Lemma equalSplit_loses_a_cent :
  let e := {| amount := ofZ 100; date := JSDate.utcMidnight 2024 1 31;
              type := group; splitBetween := Some ["u1"; "u2"; "u3"];
              splitAmounts := None; isRecurring := false;
              recurringPattern := None |} in
  let share := div (ofZ 3333) (ofZ 100) in
  ∃ e',
    preSave 0 e = Next e'
    ∧ splitAmounts e'
      = Some [ {| Split.userId := "u1"; Split.amount := share |};
               {| Split.userId := "u2"; Split.amount := share |};
               {| Split.userId := "u3"; Split.amount := share |} ]
    ∧ sum (Split.amount <$> default [] (splitAmounts e'))
      = div (ofZ 9999) (ofZ 100)
    ∧ eq (sum (Split.amount <$> default [] (splitAmounts e'))) (amount e)
      = false.
Proof. cbn zeta. eexists. split; [reflexivity |]. split_and!; by vm_compute. Qed.

(** C4 (amended).  When the expense comes with a non-empty [splitAmounts],
    the hook lets the save proceed and leaves [splitAmounts] as supplied;
    it does not compare their sum with [amount], and no case of the hook
    signals an error ([preSave_is_Next]). *)
Theorem supplied_splitAmounts_kept (tza : Z) (e : Expense)
  (s : Split.t) (l : list Split.t) :
  splitAmounts e = Some (s :: l) →
  ∃ e', preSave tza e = Next e' ∧ splitAmounts e' = Some (s :: l).
Proof.
  intros Hsa. destruct (preSave_is_Next tza e) as [e' He']. exists e'.
  split; [done |]. rewrite (preSave_splitAmounts tza e e' He'), Hsa.
  destruct (type e); [done |]. by destruct (splitBetween e) as [[|u b]|].
Qed.

Lemma supplied_splitAmounts_kept_witness :
  let custom := [ {| Split.userId := "u1"; Split.amount := ofZ 60 |};
                  {| Split.userId := "u2"; Split.amount := ofZ 40 |} ] in
  let e := {| amount := ofZ 100; date := JSDate.utcMidnight 2024 1 31;
              type := group; splitBetween := Some ["u1"; "u2"];
              splitAmounts := Some custom; isRecurring := false;
              recurringPattern := None |} in
  ∃ e', preSave 0 e = Next e' ∧ splitAmounts e' = Some custom.
Proof.
  intros custom e.
  apply (supplied_splitAmounts_kept 0 e
           {| Split.userId := "u1"; Split.amount := ofZ 60 |}
           [ {| Split.userId := "u2"; Split.amount := ofZ 40 |} ]).
  reflexivity.
Defined.

(** C4, as stated, fails: split amounts of 10 and 20 for an expense of 100
    pass the schema validators and the hook: no error is signalled. *)
Lemma mismatched_splitAmounts_saved :
  let custom := [ {| Split.userId := "u1"; Split.amount := ofZ 10 |};
                  {| Split.userId := "u2"; Split.amount := ofZ 20 |} ] in
  let e := {| amount := ofZ 100; date := JSDate.utcMidnight 2024 1 31;
              type := group; splitBetween := Some ["u1"; "u2"];
              splitAmounts := Some custom; isRecurring := false;
              recurringPattern := None |} in
  validate e = true
  ∧ sum (Split.amount <$> custom) = ofZ 30
  ∧ eq (sum (Split.amount <$> custom)) (amount e) = false
  ∧ preSave 0 e = Next e.
Proof. cbn zeta. split_and!; by vm_compute. Qed.

End ExpenseHook.

Section RecurrenceEnd.

Import JSDate Expense.

Lemma calculateNextOccurrence_spec tza e p :
  recurringPattern e = Some p →
  let candidate := nextDate tza (date e) (frequency p) (interval p) in
  let pastEnd := match endDate p with
                 | Some endD => gt candidate (DateValue endD)
                 | None => false
                 end in
  calculateNextOccurrence tza e
  = if pastEnd
    then set_recurringPattern (set_isRecurring e false)
           (set_nextOccurrence p None)
    else set_recurringPattern e
           (set_nextOccurrence p (assignDate (nextOccurrence p) candidate)).
Proof. intros Hp. unfold calculateNextOccurrence. by rewrite Hp. Qed.

(** C5 (amended).  Recurrence termination.  For a recurring expense whose
    pattern has an [endDate], let the candidate be the anchor date advanced
    by [interval] units of [frequency], and let it be a valid date, with the
    time value [c].  If the candidate is strictly later than [endDate]
    ([endDate < c]), [calculateNextOccurrence] sets [isRecurring] to false
    and clears [nextOccurrence]; otherwise the expense stays recurring and
    [nextOccurrence] is set to the candidate. *)
Theorem recurrence_stops_after_endDate (tza : Z) (e : Expense)
  (p : RecurringPattern) (endD c : Z) :
  isRecurring e = true → recurringPattern e = Some p →
  endDate p = Some endD →
  nextDate tza (date e) (frequency p) (interval p) = DateValue c →
  let e' := calculateNextOccurrence tza e in
  (endD < c →
     isRecurring e' = false
     ∧ nextOccurrence <$> recurringPattern e' = Some None)
  ∧ (c ≤ endD →
     isRecurring e' = true
     ∧ nextOccurrence <$> recurringPattern e' = Some (Some (DateValue c))).
Proof.
  intros Hrec Hp Hend Hc e'. subst e'.
  rewrite (calculateNextOccurrence_spec tza e p Hp), Hend, Hc.
  change (gt (DateValue c) (DateValue endD)) with (endD <? c).
  split; intros Hcmp.
  - by apply Z.ltb_lt in Hcmp as ->.
  - by apply Z.ltb_ge in Hcmp as ->.
Qed.

Lemma recurrence_stops_after_endDate_witness :
  let p := {| frequency := Some monthly; interval := 1;
              endDate := Some (utcMidnight 2024 2 15);
              nextOccurrence := None |} in
  let e := {| amount := Num.ofZ 100; date := utcMidnight 2024 1 31;
              type := personal; splitBetween := None; splitAmounts := None;
              isRecurring := true; recurringPattern := Some p |} in
  isRecurring (calculateNextOccurrence 0 e) = false
  ∧ nextOccurrence <$> recurringPattern (calculateNextOccurrence 0 e)
    = Some None.
Proof.
  intros p e.
  apply (recurrence_stops_after_endDate 0 e p (utcMidnight 2024 2 15)
           (utcMidnight 2024 3 2)).
  - reflexivity.
  - reflexivity.
  - reflexivity.
  - by vm_compute.
  - by vm_compute.
Defined.

(** C5, as stated, fails when advancing the anchor leaves the range of valid
    dates.  With a daily frequency and the interval 1000000000, which the
    schema accepts, the advanced instant lies far after [endDate], but the
    candidate is an invalid date: it does not compare later than [endDate],
    so the recurrence is not deactivated, and the assignment to
    [nextOccurrence] is refused, so [nextOccurrence] is not set to the
    candidate either: it stays absent. *)
Lemma out_of_range_candidate_not_stored :
  let p := {| frequency := Some daily; interval := 1000000000;
              endDate := Some (utcMidnight 2024 12 31);
              nextOccurrence := None |} in
  let e := {| amount := Num.ofZ 100; date := utcMidnight 2024 1 31;
              type := personal; splitBetween := None; splitAmounts := None;
              isRecurring := true; recurringPattern := Some p |} in
  validate e = true
  ∧ utcMidnight 2024 12 31 < date e + interval p * msPerDay
  ∧ nextDate 0 (date e) (frequency p) (interval p) = InvalidDate
  ∧ isRecurring (calculateNextOccurrence 0 e) = true
  ∧ nextOccurrence <$> recurringPattern (calculateNextOccurrence 0 e)
    = Some None.
Proof. cbn zeta. split_and!; by vm_compute. Qed.

End RecurrenceEnd.

(* ===================================================================== *)
(** ** Group: the member roster *)
(* ===================================================================== *)

Section GroupMembership.

Import Group.

Implicit Types (g : Group) (m : Member) (u : ObjectId) (ms : list Member).

Lemma find_first_elem u ms i m :
  list_find (hasUserId u) ms = Some (i, m) →
  ms !! i = Some m ∧ userId m = u ∧ m ∈ ms.
Proof.
  intros (Hi & Hu & _)%list_find_Some. split_and!; [done | done |].
  by eapply list_elem_of_lookup_2.
Qed.

Lemma find_none_iff u ms :
  list_find (hasUserId u) ms = None ↔ ∀ m, m ∈ ms → userId m ≠ u.
Proof. rewrite list_find_None, Forall_forall. done. Qed.

Lemma find_insert_same u ms i m m' :
  list_find (hasUserId u) ms = Some (i, m) → userId m' = u →
  list_find (hasUserId u) (<[i := m']> ms) = Some (i, m').
Proof.
  intros (Hi & Hu & Hfirst)%list_find_Some Hu'.
  apply list_find_insert_Some. right; left.
  split_and!; try done. by eapply lookup_lt_Some.
Qed.

Lemma fmap_insert_same {B} (f : Member → B) ms i m m' :
  ms !! i = Some m → f m' = f m → f <$> <[i := m']> ms = f <$> ms.
Proof.
  intros Hi Hf. rewrite list_fmap_insert, Hf.
  apply list_insert_id. by rewrite list_lookup_fmap, Hi.
Qed.

Lemma NoDup_userId_unique ms i j m m' :
  NoDup (userId <$> ms) → ms !! i = Some m → ms !! j = Some m' →
  userId m = userId m' → i = j.
Proof.
  intros Hnd Hi Hj Heq.
  eapply NoDup_lookup; [exact Hnd | |].
  - by rewrite list_lookup_fmap, Hi.
  - by rewrite list_lookup_fmap, Hj, Heq.
Qed.

Lemma find_of_unique u ms m :
  NoDup (userId <$> ms) → m ∈ ms → userId m = u →
  ∃ i, list_find (hasUserId u) ms = Some (i, m).
Proof.
  intros Hnd Hin Hu.
  destruct (list_find_elem_of (hasUserId u) ms m Hin Hu) as [[i m'] Hf].
  exists i. rewrite Hf. f_equal. f_equal.
  apply find_first_elem in Hf as (Hi & Hu' & _).
  apply list_elem_of_lookup in Hin as [j Hj].
  assert (i = j) by (eapply NoDup_userId_unique; eauto; congruence).
  subst j. congruence.
Qed.


Lemma removeMember_spec u g :
  match list_find (hasUserId u) (members g) with
  | Some (i, m) =>
      removeMember u g = (set_members g (<[i := deactivate m]> (members g)), true)
  | None => removeMember u g = (g, false)
  end.
Proof. unfold removeMember. by destruct (list_find _ _) as [[i m]|]. Qed.

(** C8 (amended).  [removeMember] never deletes, reorders or renames a
    record: user ids, roles and join dates of the roster are unchanged.  It
    returns [false] ("not found") exactly when the group holds no record at
    all for [userId], and then changes nothing.  Otherwise it returns
    [true] and marks the first record of [userId] inactive, whatever its
    flag was, leaving every other record as it is. *)
Theorem removeMember_first_record (u : ObjectId) (g : Group) :
  let g' := (removeMember u g).1 in
  let found := (removeMember u g).2 in
  userId <$> members g' = userId <$> members g
  ∧ role <$> members g' = role <$> members g
  ∧ joinedAt <$> members g' = joinedAt <$> members g
  ∧ (found = false ↔ ∀ m, m ∈ members g → userId m ≠ u)
  ∧ (found = false → g' = g)
  ∧ (∀ i m, members g !! i = Some m → userId m = u →
       (∀ j m', members g !! j = Some m' → (j < i)%nat → userId m' ≠ u) →
       found = true
       ∧ members g' !! i = Some (deactivate m)
       ∧ ∀ j, j ≠ i → members g' !! j = members g !! j).
Proof.
  pose proof (removeMember_spec u g) as Hspec. cbn zeta.
  destruct (list_find _ _) as [[i m]|] eqn:Hfind; rewrite Hspec; cbn.
  - pose proof Hfind as (Hi & Hu & Hin)%find_first_elem.
    split_and!.
    + by eapply fmap_insert_same.
    + by eapply fmap_insert_same.
    + by eapply fmap_insert_same.
    + split; [done |]. intros Hno. by destruct (Hno m Hin).
    + done.
    + intros i' m' Hi' Hu' Hfirst.
      assert (list_find (hasUserId u) (members g) = Some (i', m')) as Hfind'
        by (apply list_find_Some; split_and!; done).
      rewrite Hfind in Hfind'. inversion Hfind'; subst i' m'.
      split_and!; [done | | ].
      * apply list_lookup_insert_eq. by eapply lookup_lt_Some.
      * intros j Hj. by apply list_lookup_insert_ne.
  - pose proof (proj1 (find_none_iff u (members g)) Hfind) as Hno.
    split_and!; try done.
    intros i m Hi Hu _. exfalso.
    eapply Hno; [by eapply list_elem_of_lookup_2 | done].
Qed.

Lemma removeMember_first_record_witness :
  let g := {| members := [ {| userId := "a"; role := admin; joinedAt := 1; isActive := true |};
                           {| userId := "b"; role := member; joinedAt := 2; isActive := true |} ];
              statsMemberCount := 2; isNew := false; inviteCode := Some "X1Y2Z3" |} in
  (removeMember "b" g).2 = true
  ∧ members (removeMember "b" g).1 !! 1%nat
    = Some {| userId := "b"; role := member; joinedAt := 2; isActive := false |}.
Proof.
  intros g.
  destruct (removeMember_first_record "b" g) as (_ & _ & _ & _ & _ & H).
  destruct (H 1%nat {| userId := "b"; role := member; joinedAt := 2; isActive := true |})
    as (Hf & Hl & _).
  - reflexivity.
  - reflexivity.
  - intros [|[|j]] m' Hj Hlt; [ | lia | lia ].
    inversion Hj; subst m'. discriminate.
  - split; [exact Hf | exact Hl].
Defined.

(** C8, as stated, fails: a group whose only record of the user is already
    inactive holds no active record of the user, and [removeMember] returns
    [true], not "not found". *)
Lemma removeMember_inactive_is_found :
  let g := {| members := [ {| userId := "u1"; role := member; joinedAt := 0; isActive := false |} ];
              statsMemberCount := 0; isNew := false; inviteCode := None |} in
  (∀ m, m ∈ members g → userId m = "u1" → isActive m = false)
  ∧ (removeMember "u1" g).2 = true.
Proof.
  cbn zeta. split; [| reflexivity].
  intros m Hin _. apply list_elem_of_singleton in Hin. by subst m.
Qed.


Lemma addMember_spec now u r g :
  match list_find (hasUserId u) (members g) with
  | Some (i, m) =>
      if isActive m then addMember now u r g = (g, m)
      else addMember now u r g
           = (set_members g (<[i := reactivate now m]> (members g)),
              reactivate now m)
  | None =>
      let new := {| userId := u; role := r; joinedAt := now; isActive := true |} in
      addMember now u r g = (set_members g (members g ++ [new]), new)
  end.
Proof.
  unfold addMember. destruct (list_find _ _) as [[i m]|]; [| done].
  by destruct (isActive m).
Qed.

(** After [addMember], the first record of the user is the record returned,
    and it is active. *)
Lemma addMember_found_active now u r g :
  ∃ i, list_find (hasUserId u) (members (addMember now u r g).1)
       = Some (i, (addMember now u r g).2)
       ∧ isActive (addMember now u r g).2 = true.
Proof.
  pose proof (addMember_spec now u r g) as Hspec.
  destruct (list_find _ _) as [[i m]|] eqn:Hfind.
  - destruct (isActive m) eqn:Hact; rewrite Hspec; cbn.
    + by exists i.
    + exists i. split; [| done].
      apply find_insert_same with (m := m); [done |].
      by apply find_first_elem in Hfind as (_ & Hu & _).
  - cbn zeta in Hspec. rewrite Hspec; cbn.
    exists (length (members g)). split; [| done].
    rewrite list_find_app_r by done. cbn.
    by rewrite decide_True by done.
Qed.

Lemma addMember_userIds now u r g :
  userId <$> members (addMember now u r g).1
  = match list_find (hasUserId u) (members g) with
    | Some _ => userId <$> members g
    | None => (userId <$> members g) ++ [u]
    end.
Proof.
  pose proof (addMember_spec now u r g) as Hspec.
  destruct (list_find _ _) as [[i m]|] eqn:Hfind.
  - apply find_first_elem in Hfind as (Hi & _ & _).
    destruct (isActive m); rewrite Hspec; cbn; [done |].
    by eapply fmap_insert_same.
  - cbn zeta in Hspec. rewrite Hspec; cbn. by rewrite fmap_app.
Qed.

(** C9 (amended).  When the first record of [userId], the one [addMember]
    looks up, is active, [addMember] returns that record and the group
    unchanged.  This is the case for every active member of a roster that
    holds at most one record per user, and then [memberCount] is
    unchanged; [addMember] keeps rosters that way.  On every group, a
    second [addMember] for the same user returns the same record and the
    same group as the first: no entry is added twice. *)
Theorem addMember_idempotent (now : Z) (u : ObjectId) (r : Role) (g : Group) :
  (∀ i m, list_find (hasUserId u) (members g) = Some (i, m) →
     isActive m = true → addMember now u r g = (g, m))
  ∧ (∀ m, NoDup (userId <$> members g) → m ∈ members g → userId m = u →
       isActive m = true →
       addMember now u r g = (g, m)
       ∧ memberCount (addMember now u r g).1 = memberCount g)
  ∧ (NoDup (userId <$> members g) →
       NoDup (userId <$> members (addMember now u r g).1))
  ∧ (∀ now' r',
       addMember now' u r' (addMember now u r g).1 = addMember now u r g).
Proof.
  assert (∀ i m, list_find (hasUserId u) (members g) = Some (i, m) →
            isActive m = true → addMember now u r g = (g, m)) as Hfirst.
  { intros i m Hfind Hact. pose proof (addMember_spec now u r g) as Hspec.
    by rewrite Hfind, Hact in Hspec. }
  split_and!.
  - exact Hfirst.
  - intros m Hnd Hin Hu Hact.
    destruct (find_of_unique u (members g) m Hnd Hin Hu) as [i Hfind].
    rewrite (Hfirst i m Hfind Hact). done.
  - intros Hnd. rewrite addMember_userIds.
    destruct (list_find _ _) eqn:Hfind; [done |].
    apply NoDup_app. split_and!; [done | | apply NoDup_singleton].
    intros x Hx ->%list_elem_of_singleton.
    apply list_elem_of_fmap in Hx as (m & Hu & Hin).
    pose proof (proj1 (find_none_iff _ _) Hfind m Hin). done.
  - intros now' r'.
    destruct (addMember_found_active now u r g) as (i & Hfind & Hact).
    pose proof (addMember_spec now' u r' (addMember now u r g).1) as Hspec.
    rewrite Hfind, Hact in Hspec. rewrite Hspec. by destruct (addMember now u r g).
Qed.

Lemma addMember_idempotent_witness :
  let a := {| userId := "a"; role := admin; joinedAt := 1; isActive := true |} in
  let b := {| userId := "b"; role := member; joinedAt := 2; isActive := true |} in
  let g := {| members := [a; b]; statsMemberCount := 2; isNew := false;
              inviteCode := Some "X1Y2Z3" |} in
  addMember 7 "b" admin g = (g, b)
  ∧ memberCount (addMember 7 "b" admin g).1 = memberCount g.
Proof.
  intros a b g.
  destruct (addMember_idempotent 7 "b" admin g) as (_ & H & _).
  apply H.
  - cbn. repeat (apply NoDup_cons; split; [by intros ?%list_elem_of_In; cbn in *; intuition discriminate |]). apply NoDup_nil; done.
  - cbn. by repeat constructor.
  - reflexivity.
  - reflexivity.
Defined.

(** C9, as stated, fails on a roster that holds an inactive record of the
    user before an active one: the user has an active record, but
    [addMember] reactivates the older record, which changes the roster,
    returns a record that was not in it, and raises [memberCount] from 1
    to 2. *)
Lemma addMember_second_record_active :
  let old := {| userId := "u1"; role := member; joinedAt := 0; isActive := false |} in
  let cur := {| userId := "u1"; role := member; joinedAt := 5; isActive := true |} in
  let g := {| members := [old; cur]; statsMemberCount := 1; isNew := false;
              inviteCode := None |} in
  (cur ∈ members g ∧ userId cur = "u1" ∧ isActive cur = true)
  ∧ members (addMember 9 "u1" member g).1
    = [ {| userId := "u1"; role := member; joinedAt := 9; isActive := true |}; cur ]
  ∧ members (addMember 9 "u1" member g).1 ≠ members g
  ∧ ¬ ((addMember 9 "u1" member g).2 ∈ members g)
  ∧ memberCount g = 1%nat
  ∧ memberCount (addMember 9 "u1" member g).1 = 2%nat.
Proof.
  cbn zeta. split_and!; try reflexivity; try done.
  - by repeat constructor.
  - cbn. intros [H|H%list_elem_of_singleton]%elem_of_cons; discriminate.
Qed.

(** C10.  [addMember] preserves the existing role.  When the group already
    holds a record of [userId], active or not, every record keeps its role
    and its user id and none is added; the record returned is the first
    record of the user, with the role it had; a record of the roster is
    either untouched or was inactive and differs only in [isActive], now
    true, and [joinedAt], now the current time.  The [role] argument is
    used only when the group holds no record of the user: then the new
    record, with that role, is appended. *)
Theorem addMember_preserves_role (now : Z) (u : ObjectId) (r : Role) (g : Group) :
  let g' := (addMember now u r g).1 in
  let ret := (addMember now u r g).2 in
  ((∃ m, m ∈ members g ∧ userId m = u) →
     role <$> members g' = role <$> members g
     ∧ userId <$> members g' = userId <$> members g
     ∧ (∃ i m, members g !! i = Some m ∧ userId m = u
               ∧ members g' !! i = Some ret ∧ role ret = role m)
     ∧ (∀ i m m', members g !! i = Some m → members g' !! i = Some m' →
          m' = m
          ∨ (isActive m = false
             ∧ userId m' = userId m ∧ role m' = role m
             ∧ isActive m' = true ∧ joinedAt m' = now)))
  ∧ ((∀ m, m ∈ members g → userId m ≠ u) →
     ret = {| userId := u; role := r; joinedAt := now; isActive := true |}
     ∧ members g' = members g ++ [ret]).
Proof.
  pose proof (addMember_spec now u r g) as Hspec. cbn zeta. split.
  - intros (m0 & Hin0 & Hu0).
    destruct (list_find _ _) as [[i m]|] eqn:Hfind.
    2: { pose proof (proj1 (find_none_iff _ _) Hfind m0 Hin0). done. }
    apply find_first_elem in Hfind as (Hi & Hu & Hin).
    destruct (isActive m) eqn:Hact; rewrite Hspec; cbn.
    + split_and!; [done | done | by exists i, m | ].
      intros j m1 m2 H1 H2. left. congruence.
    + assert (i < length (members g))%nat as Hlt by by eapply lookup_lt_Some.
      split_and!.
      * by eapply fmap_insert_same.
      * by eapply fmap_insert_same.
      * exists i, m. split_and!; try done. by apply list_lookup_insert_eq.
      * intros j m1 m2 H1 H2. destruct (decide (j = i)) as [->|Hne].
        -- rewrite list_lookup_insert_eq in H2 by done.
           right. assert (m1 = m) by congruence. subst m1.
           inversion H2; subst m2. done.
        -- rewrite list_lookup_insert_ne in H2 by done. left. congruence.
  - intros Hno. apply find_none_iff in Hno. rewrite Hno in Hspec.
    cbn zeta in Hspec. by rewrite Hspec.
Qed.

Lemma addMember_preserves_role_witness :
  let a := {| userId := "a"; role := admin; joinedAt := 1; isActive := false |} in
  let g := {| members := [a]; statsMemberCount := 0; isNew := false;
              inviteCode := Some "X1Y2Z3" |} in
  role <$> members (addMember 7 "a" member g).1 = [admin]
  ∧ (addMember 7 "c" admin g).2
    = {| userId := "c"; role := admin; joinedAt := 7; isActive := true |}.
Proof.
  intros a g. split.
  - apply (proj1 (addMember_preserves_role 7 "a" member g)).
    exists a. split; [by repeat constructor | reflexivity].
  - apply (proj2 (addMember_preserves_role 7 "c" admin g)).
    intros m ->%list_elem_of_singleton. discriminate.
Defined.

End GroupMembership.


(* ===================================================================== *)
(** * Further properties of the models *)
(* ===================================================================== *)

(** ** Group: membership tests and the member count *)

Section GroupRoster.

Import Group.

Implicit Types (g : Group) (m : Member) (u : ObjectId) (ms : list Member).

Lemma isMember_iff u g :
  isMember u g = true
  ↔ ∃ m, m ∈ members g ∧ userId m = u ∧ isActive m = true.
Proof.
  unfold isMember. rewrite existsb_exists. split.
  - intros (m & Hin & [Hu Ha]%andb_prop). exists m.
    split_and!; [by apply list_elem_of_In | | done].
    by apply bool_decide_eq_true in Hu.
  - intros (m & Hin & Hu & Ha). exists m. split; [by apply list_elem_of_In |].
    apply andb_true_intro. split; [| done]. by apply bool_decide_eq_true.
Qed.

Lemma isAdmin_iff u g :
  isAdmin u g = true
  ↔ ∃ m, m ∈ members g ∧ userId m = u ∧ role m = admin ∧ isActive m = true.
Proof.
  unfold isAdmin. rewrite existsb_exists. split.
  - intros (m & Hin & [[Hu Hr]%andb_prop Ha]%andb_prop). exists m.
    split_and!; [by apply list_elem_of_In | | | done].
    + by apply bool_decide_eq_true in Hu.
    + by destruct (role m).
  - intros (m & Hin & Hu & Hr & Ha). exists m.
    split; [by apply list_elem_of_In |].
    rewrite Hr, Ha. cbn. rewrite !andb_true_r. by apply bool_decide_eq_true.
Qed.

Lemma elem_of_insert_inv ms i m' x :
  x ∈ <[i := m']> ms → x = m' ∨ ∃ j, j ≠ i ∧ ms !! j = Some x.
Proof.
  intros [j Hj]%list_elem_of_lookup.
  destruct (decide (j = i)) as [-> | Hne].
  - left. destruct (decide (i < length ms)%nat).
    + rewrite list_lookup_insert_eq in Hj by done. congruence.
    + rewrite list_insert_ge in Hj by lia.
      apply lookup_lt_Some in Hj. lia.
  - right. exists j. split; [done |].
    by rewrite list_lookup_insert_ne in Hj.
Qed.

Lemma count_active_insert ms i m m' :
  ms !! i = Some m →
  (length (List.filter (λ x, isActive x) (<[i := m']> ms))
   + (if isActive m then 1 else 0)
   = length (List.filter (λ x, isActive x) ms)
     + (if isActive m' then 1 else 0))%nat.
Proof.
  revert i. induction ms as [|x l IH]; intros [|i] Hi; try done.
  - injection Hi as ->. change (<[0%nat := m']> (m :: l)) with (m' :: l).
    simpl List.filter. destruct (isActive m), (isActive m'); simpl length; lia.
  - specialize (IH i Hi).
    change (<[S i := m']> (x :: l)) with (x :: <[i := m']> l).
    simpl List.filter. destruct (isActive x); simpl length; lia.
Qed.

Lemma memberCount_set_members g ms :
  memberCount (set_members g ms)
  = length (List.filter (λ x, isActive x) ms).
Proof. reflexivity. Qed.

Lemma deactivate_inactive m : isActive m = false → deactivate m = m.
Proof. destruct m as [u r j a]. cbn. by intros ->. Qed.

(** Replacing the record of a user by another record of the same user
    leaves the records of every other user where they are. *)
Lemma elem_of_insert_other u ms i m m' x :
  ms !! i = Some m → userId m = u → userId m' = u → userId x ≠ u →
  x ∈ <[i := m']> ms ↔ x ∈ ms.
Proof.
  intros Hi Hm Hm' Hx. split.
  - intros [-> | (j & _ & Hj)]%elem_of_insert_inv; [done |].
    by eapply list_elem_of_lookup_2.
  - intros [j Hj]%list_elem_of_lookup.
    assert (j ≠ i) by (intros ->; congruence).
    apply list_elem_of_lookup. exists j. by rewrite list_lookup_insert_ne.
Qed.

Lemma elem_of_app_other u ms m' x :
  userId m' = u → userId x ≠ u → x ∈ ms ++ [m'] ↔ x ∈ ms.
Proof.
  intros Hm' Hx. rewrite elem_of_app, list_elem_of_singleton.
  split; [intros [? | ->]; done | by left].
Qed.

(** Membership tests depend only on which records of the user the roster
    holds. *)
Lemma membership_ext u g g' :
  (∀ x, userId x = u → x ∈ members g' ↔ x ∈ members g) →
  isMember u g' = isMember u g ∧ isAdmin u g' = isAdmin u g.
Proof.
  intros Hext. split; apply eq_true_iff_eq.
  - rewrite !isMember_iff.
    split; intros (m & Hin & Hu & Ha); exists m; split_and!; try done;
      by apply (Hext m Hu).
  - rewrite !isAdmin_iff.
    split; intros (m & Hin & Hu & Hr & Ha); exists m; split_and!; try done;
      by apply (Hext m Hu).
Qed.

Lemma addMember_other_records now u r g x :
  userId x ≠ u → x ∈ members (addMember now u r g).1 ↔ x ∈ members g.
Proof.
  intros Hx. pose proof (addMember_spec now u r g) as Hspec.
  destruct (list_find _ _) as [[i m]|] eqn:Hfind.
  - apply find_first_elem in Hfind as (Hi & Hu & _).
    destruct (isActive m); rewrite Hspec; [done |].
    by apply (elem_of_insert_other u _ i m).
  - cbn zeta in Hspec. rewrite Hspec. by apply (elem_of_app_other u).
Qed.

Lemma removeMember_other_records u g x :
  userId x ≠ u → x ∈ members (removeMember u g).1 ↔ x ∈ members g.
Proof.
  intros Hx. pose proof (removeMember_spec u g) as Hspec.
  destruct (list_find _ _) as [[i m]|] eqn:Hfind; rewrite Hspec; [| done].
  apply find_first_elem in Hfind as (Hi & Hu & _).
  by apply (elem_of_insert_other u _ i m).
Qed.

(** X1.  After [addMember] the user is a member, whatever the roster was,
    and the membership and admin status of every other user are what they
    were. *)
Theorem addMember_isMember (now : Z) (u : ObjectId) (r : Role) (g : Group) :
  let g' := (addMember now u r g).1 in
  isMember u g' = true
  ∧ ∀ u', u' ≠ u →
      isMember u' g' = isMember u' g ∧ isAdmin u' g' = isAdmin u' g.
Proof.
  cbn zeta. split.
  - destruct (addMember_found_active now u r g) as (i & Hfind & Hact).
    apply find_first_elem in Hfind as (_ & Hu & Hin).
    apply isMember_iff. by exists (addMember now u r g).2.
  - intros u' Hne. apply membership_ext. intros x Hx.
    apply addMember_other_records. congruence.
Qed.

Lemma addMember_isMember_witness :
  let a := {| userId := "a"; role := admin; joinedAt := 1; isActive := true |} in
  let g := {| members := [a]; statsMemberCount := 1; isNew := false;
              inviteCode := Some "X1Y2Z3" |} in
  isMember "b" (addMember 7 "b" member g).1 = true
  ∧ isAdmin "a" (addMember 7 "b" member g).1 = isAdmin "a" g.
Proof.
  intros a g.
  destruct (addMember_isMember 7 "b" member g) as (Hin & Hother).
  split; [exact Hin |]. apply (Hother "a"). discriminate.
Defined.

(** X2.  Adding a user who is not an active member raises [memberCount]
    by exactly one, whether a new record is appended or an inactive one is
    reactivated, and the save hook then stores that count in
    [stats.memberCount]. *)
Theorem addMember_memberCount (now : Z) (u : ObjectId) (r : Role) (g : Group)
  (code : string) :
  isMember u g = false →
  memberCount (addMember now u r g).1 = S (memberCount g)
  ∧ ∃ g', preSave code (addMember now u r g).1 = Next g'
          ∧ statsMemberCount g' = S (memberCount g).
Proof.
  intros Hnot.
  assert (memberCount (addMember now u r g).1 = S (memberCount g)) as Hcount.
  { pose proof (addMember_spec now u r g) as Hspec.
    destruct (list_find _ _) as [[i m]|] eqn:Hfind.
    - apply find_first_elem in Hfind as (Hi & Hu & Hin).
      destruct (isActive m) eqn:Hact.
      + assert (isMember u g = true) by (apply isMember_iff; by exists m).
        congruence.
      + rewrite Hspec. cbn [fst]. rewrite memberCount_set_members.
        pose proof (count_active_insert _ i m (reactivate now m) Hi) as Hc.
        rewrite Hact in Hc. cbn in Hc. unfold memberCount, activeMembers. lia.
    - cbn zeta in Hspec. rewrite Hspec. cbn [fst].
      rewrite memberCount_set_members, List.filter_app, length_app.
      cbn. unfold memberCount, activeMembers. lia. }
  split; [done |]. eexists. split; [reflexivity |]. cbn. exact Hcount.
Qed.


Lemma addMember_memberCount_witness :
  let a := {| userId := "a"; role := admin; joinedAt := 1; isActive := true |} in
  let b := {| userId := "b"; role := member; joinedAt := 2; isActive := false |} in
  let g := {| members := [a; b]; statsMemberCount := 1; isNew := false;
              inviteCode := Some "X1Y2Z3" |} in
  memberCount (addMember 7 "b" member g).1 = 2%nat.
Proof.
  intros a b g.
  apply (proj1 (addMember_memberCount 7 "b" member g "Q7W8E9" eq_refl)).
Defined.

(** In a roster with one record per user, the records of a user are the
    record that [find] yields. *)
Lemma unique_record u ms i m x :
  NoDup (userId <$> ms) → ms !! i = Some m → userId m = u →
  x ∈ ms → userId x = u → x = m.
Proof.
  intros Hnd Hi Hu [j Hj]%list_elem_of_lookup Hx.
  assert (j = i) by (eapply NoDup_userId_unique; eauto; congruence).
  subst j. congruence.
Qed.

(** X3.  [removeMember] leaves the membership and admin status of every
    other user as they were.  On a roster with at most one record per user,
    the removed user is no longer a member nor an admin, and if the user
    was a member [memberCount] drops by exactly one. *)
Theorem removeMember_isMember (u : ObjectId) (g : Group) :
  let g' := (removeMember u g).1 in
  (∀ u', u' ≠ u →
     isMember u' g' = isMember u' g ∧ isAdmin u' g' = isAdmin u' g)
  ∧ (NoDup (userId <$> members g) →
       isMember u g' = false ∧ isAdmin u g' = false
       ∧ (isMember u g = true → memberCount g = S (memberCount g'))).
Proof.
  cbn zeta. split.
  - intros u' Hne. apply membership_ext. intros x Hx.
    apply removeMember_other_records. congruence.
  - intros Hnd. pose proof (removeMember_spec u g) as Hspec.
    destruct (list_find _ _) as [[i m]|] eqn:Hfind; rewrite Hspec; cbn [fst].
    + apply find_first_elem in Hfind as (Hi & Hu & Hin).
      assert (isMember u (set_members g (<[i:=deactivate m]> (members g)))
              = false) as Hout.
      { apply not_true_is_false. intros (x & Hx & Hxu & Hxa)%isMember_iff.
        cbn in Hx. apply elem_of_insert_inv in Hx as [-> | (j & Hj & Hjx)].
        - done.
        - apply Hj. eapply NoDup_userId_unique; eauto. congruence. }
      split_and!; [done | |].
      * apply not_true_is_false.
        intros (x & Hx & Hxu & _ & Hxa)%isAdmin_iff.
        assert (isMember u (set_members g (<[i:=deactivate m]> (members g)))
                = true) by (apply isMember_iff; by exists x).
        congruence.
      * intros (x & Hx & Hxu & Hxa)%isMember_iff.
        assert (x = m) by by eapply unique_record. subst x.
        rewrite memberCount_set_members.
        pose proof (count_active_insert _ i m (deactivate m) Hi) as Hc.
        rewrite Hxa in Hc. cbn in Hc. unfold memberCount, activeMembers. lia.
    + pose proof (proj1 (find_none_iff _ _) Hfind) as Hno.
      assert (isMember u g = false) as Hout.
      { apply not_true_is_false. intros (x & Hx & Hxu & _)%isMember_iff.
        by apply (Hno x). }
      split_and!; [done | | by rewrite Hout].
      apply not_true_is_false. intros (x & Hx & Hxu & _)%isAdmin_iff.
      by apply (Hno x).
Qed.

Lemma removeMember_isMember_witness :
  let a := {| userId := "a"; role := admin; joinedAt := 1; isActive := true |} in
  let b := {| userId := "b"; role := member; joinedAt := 2; isActive := true |} in
  let g := {| members := [a; b]; statsMemberCount := 2; isNew := false;
              inviteCode := Some "X1Y2Z3" |} in
  isMember "b" (removeMember "b" g).1 = false
  ∧ isAdmin "b" (removeMember "b" g).1 = false
  ∧ memberCount g = S (memberCount (removeMember "b" g).1).
Proof.
  intros a b g.
  destruct (proj2 (removeMember_isMember "b" g)) as (H1 & H2 & H3).
  - cbn. repeat (apply NoDup_cons; split;
                 [by intros ?%list_elem_of_In; cbn in *; intuition discriminate |]).
    apply NoDup_nil; done.
  - split_and!; [exact H1 | exact H2 | apply H3; reflexivity].
Defined.

(** X4.  Removing a user a second time changes nothing more and returns
    what the first call returned; removing a user who is not an active
    member leaves the group as it was. *)
Theorem removeMember_twice (u : ObjectId) (g : Group) :
  removeMember u (removeMember u g).1 = removeMember u g
  ∧ (isMember u g = false → (removeMember u g).1 = g).
Proof.
  pose proof (removeMember_spec u g) as Hspec.
  destruct (list_find _ _) as [[i m]|] eqn:Hfind; rewrite Hspec; cbn [fst].
  - pose proof Hfind as (Hi & Hu & Hin)%find_first_elem.
    assert (i < length (members g))%nat as Hlt by by eapply lookup_lt_Some.
    split.
    + pose proof (removeMember_spec u
                    (set_members g (<[i:=deactivate m]> (members g)))) as H2.
      cbn [members set_members] in H2.
      rewrite (find_insert_same u _ i m (deactivate m) Hfind Hu) in H2.
      rewrite H2. f_equal. unfold set_members. cbn. f_equal.
      by rewrite list_insert_insert_eq.
    + intros Hnot. destruct (isActive m) eqn:Hact.
      * assert (isMember u g = true) by (apply isMember_iff; by exists m).
        congruence.
      * rewrite deactivate_inactive by done.
        rewrite list_insert_id by done. by destruct g.
  - rewrite Hspec. done.
Qed.

Lemma removeMember_twice_witness :
  let a := {| userId := "a"; role := admin; joinedAt := 1; isActive := false |} in
  let g := {| members := [a]; statsMemberCount := 0; isNew := false;
              inviteCode := Some "X1Y2Z3" |} in
  (removeMember "a" g).1 = g.
Proof.
  intros a g. apply (proj2 (removeMember_twice "a" g)). reflexivity.
Defined.

(** X5.  On a roster with at most one record per user, removing a user
    and adding the user again gives back the old record with its old role,
    active and with a new join date: the [role] argument of the second
    call is ignored, so a removed admin who is re-added as [member] is an
    admin again. *)
Theorem removeMember_addMember_role (now : Z) (u : ObjectId) (r : Role)
  (g : Group) (m : Member) :
  NoDup (userId <$> members g) → m ∈ members g → userId m = u →
  let back := addMember now u r (removeMember u g).1 in
  back.2 = {| userId := u; role := role m; joinedAt := now; isActive := true |}
  ∧ role <$> members back.1 = role <$> members g
  ∧ userId <$> members back.1 = userId <$> members g
  ∧ isMember u back.1 = true
  ∧ isAdmin u back.1 = Role_eqb (role m) admin.
Proof.
  intros Hnd Hin Hu back.
  destruct (find_of_unique u (members g) m Hnd Hin Hu) as [i Hfind].
  pose proof Hfind as (Hi & _ & _)%find_first_elem.
  assert (i < length (members g))%nat as Hlt by by eapply lookup_lt_Some.
  pose proof (removeMember_spec u g) as Hrem. rewrite Hfind in Hrem.
  pose proof (addMember_spec now u r (removeMember u g).1) as Hadd.
  rewrite Hrem in Hadd. cbn [fst members set_members] in Hadd.
  rewrite (find_insert_same u _ i m (deactivate m) Hfind Hu) in Hadd.
  cbn [isActive deactivate] in Hadd.
  rewrite list_insert_insert_eq in Hadd.
  assert (back = (set_members g (<[i:=reactivate now (deactivate m)]> (members g)),
                  reactivate now (deactivate m))) as Hback.
  { unfold back. rewrite Hrem. cbn [fst]. rewrite Hadd. done. }
  rewrite Hback. cbn [fst snd members set_members].
  assert (reactivate now (deactivate m)
          = {| userId := u; role := role m; joinedAt := now; isActive := true |})
    as Hrec by (unfold reactivate, deactivate; cbn; by rewrite Hu).
  split_and!.
  - done.
  - by eapply fmap_insert_same.
  - by eapply fmap_insert_same.
  - apply isMember_iff. exists (reactivate now (deactivate m)).
    split_and!; [| by rewrite Hrec | done].
    cbn. apply list_elem_of_lookup. exists i. by apply list_lookup_insert_eq.
  - apply eq_true_iff_eq. rewrite isAdmin_iff. split.
    + intros (x & Hx & Hxu & Hxr & _). cbn in Hx.
      apply elem_of_insert_inv in Hx as [-> | (j & Hj & Hjx)].
      * cbn in Hxr. by rewrite Hxr.
      * exfalso. apply Hj. eapply NoDup_userId_unique; eauto. congruence.
    + intros Hr. exists (reactivate now (deactivate m)).
      split_and!; [| by rewrite Hrec | | done].
      * cbn. apply list_elem_of_lookup. exists i.
        by apply list_lookup_insert_eq.
      * cbn. by destruct (role m).
Qed.

Lemma removeMember_addMember_role_witness :
  let a := {| userId := "a"; role := admin; joinedAt := 1; isActive := true |} in
  let g := {| members := [a]; statsMemberCount := 1; isNew := false;
              inviteCode := Some "X1Y2Z3" |} in
  (addMember 9 "a" member (removeMember "a" g).1).2
  = {| userId := "a"; role := admin; joinedAt := 9; isActive := true |}
  ∧ isAdmin "a" (addMember 9 "a" member (removeMember "a" g).1).1 = true.
Proof.
  intros a g.
  destruct (removeMember_addMember_role 9 "a" member g a) as (H1 & _ & _ & _ & H5).
  - cbn. apply NoDup_singleton.
  - by repeat constructor.
  - reflexivity.
  - split; [exact H1 | exact H5].
Defined.

Lemma adminMembers_length ms :
  (length (List.filter (λ m, Role_eqb (role m) admin && isActive m) ms)
   ≤ length (List.filter (λ m, isActive m) ms))%nat.
Proof.
  induction ms as [|x l IH]; [done |]. cbn.
  destruct (Role_eqb (role x) admin), (isActive x); cbn; lia.
Qed.

(** X6.  An admin is a member.  [isMember] holds exactly for the users of
    [activeMembers], [isAdmin] exactly for the users of [adminMembers],
    every admin record is an active record, and there are at most
    [memberCount] admin records. *)
Theorem isAdmin_isMember (u : ObjectId) (g : Group) :
  (isAdmin u g = true → isMember u g = true)
  ∧ (isMember u g = true ↔ u ∈ userId <$> activeMembers g)
  ∧ (isAdmin u g = true ↔ u ∈ userId <$> adminMembers g)
  ∧ (∀ m, m ∈ adminMembers g → m ∈ activeMembers g)
  ∧ (length (adminMembers g) ≤ memberCount g)%nat.
Proof.
  assert (∀ m, m ∈ activeMembers g ↔ m ∈ members g ∧ isActive m = true)
    as Hact.
  { intros m. unfold activeMembers.
    by rewrite !list_elem_of_In, List.filter_In. }
  assert (∀ m, m ∈ adminMembers g
               ↔ m ∈ members g ∧ role m = admin ∧ isActive m = true) as Hadm.
  { intros m. unfold adminMembers.
    rewrite !list_elem_of_In, List.filter_In, andb_true_iff.
    by destruct (role m); intuition. }
  split_and!.
  - rewrite isAdmin_iff, isMember_iff.
    intros (m & ? & ? & ? & ?). by exists m.
  - rewrite isMember_iff, list_elem_of_fmap. split.
    + intros (m & ? & ? & ?). exists m. split; [done |]. by apply Hact.
    + intros (m & ? & [? ?]%Hact). by exists m.
  - rewrite isAdmin_iff, list_elem_of_fmap. split.
    + intros (m & ? & ? & ? & ?). exists m. split; [done |]. by apply Hadm.
    + intros (m & ? & (? & ? & ?)%Hadm). by exists m.
  - intros m (? & ? & ?)%Hadm. by apply Hact.
  - apply adminMembers_length.
Qed.

Lemma isAdmin_isMember_witness :
  let a := {| userId := "a"; role := admin; joinedAt := 1; isActive := true |} in
  let g := {| members := [a]; statsMemberCount := 1; isNew := false;
              inviteCode := Some "X1Y2Z3" |} in
  isMember "a" g = true.
Proof.
  intros a g. apply (proj1 (isAdmin_isMember "a" g)). reflexivity.
Defined.

End GroupRoster.

(** ** Expense: daily, weekly and yearly recurrences *)

Section RecurrenceUnits.

Import JSDate Expense.

Lemma MakeDate_shift (day k time : Z) :
  MakeDate (day + k) time = MakeDate day time + k * msPerDay.
Proof. unfold MakeDate. lia. Qed.

Lemma setDate_shift (tza t k : Z) :
  setDate tza t (getDate tza t + k) = TimeClip (t + k * msPerDay).
Proof.
  unfold setDate. cbv zeta. f_equal.
  destruct (civil_of_time (LocalTime tza t)) as (_ & _ & Hday).
  unfold getDate. rewrite (Z.add_comm (DateFromTime _) k), MakeDay_date, Hday.
  rewrite MakeDate_shift, MakeDate_Day. unfold UTC, LocalTime. lia.
Qed.

Lemma nextDate_daily (tza t k : Z) :
  nextDate tza t (Some daily) k = setDate tza t (getDate tza t + k).
Proof. reflexivity. Qed.

Lemma nextDate_weekly (tza t k : Z) :
  nextDate tza t (Some weekly) k = setDate tza t (getDate tza t + k * 7).
Proof. reflexivity. Qed.

Lemma nextDate_yearly (tza t k : Z) :
  nextDate tza t (Some yearly) k
  = setFullYear tza t (getFullYear tza t + k).
Proof. reflexivity. Qed.

(** X7.  A daily recurrence advances the anchor by exactly
    [interval * msPerDay] milliseconds and a weekly one by exactly
    [7 * interval * msPerDay], in every time zone of fixed offset and up to
    [TimeClip]; with a positive interval a valid result is strictly later
    than the anchor. *)
Theorem daily_weekly_exact (tza t k : Z) :
  nextDate tza t (Some daily) k = TimeClip (t + k * msPerDay)
  ∧ nextDate tza t (Some weekly) k = TimeClip (t + 7 * k * msPerDay)
  ∧ (0 < k → ∀ t', nextDate tza t (Some daily) k = DateValue t'
                   ∨ nextDate tza t (Some weekly) k = DateValue t' → t < t').
Proof.
  rewrite nextDate_daily, nextDate_weekly, !setDate_shift.
  replace (k * 7 * msPerDay) with (7 * k * msPerDay) by lia.
  split_and!; [done | done |].
  intros Hk t' [H | H]; apply TimeClip_DateValue in H;
    unfold msPerDay in H; lia.
Qed.

Lemma daily_weekly_exact_witness :
  nextDate 10800000 (utcMidnight 2024 1 31) (Some daily) 30
  = DateValue (utcMidnight 2024 3 1)
  ∧ utcMidnight 2024 1 31 < utcMidnight 2024 3 1.
Proof.
  destruct (daily_weekly_exact 10800000 (utcMidnight 2024 1 31) 30)
    as (Hd & _ & Hlater).
  split.
  - rewrite Hd. by vm_compute.
  - apply Hlater; [lia |]. left. rewrite Hd. by vm_compute.
Defined.

Lemma MakeDay_years (y m d k : Z) :
  MakeDay (y + k) m d = MakeDay y (m + 12 * k) d.
Proof.
  rewrite (MakeDay_norm (y + k) m), (MakeDay_norm y (m + 12 * k)).
  f_equal; Z.to_euclidean_division_equations; lia.
Qed.

(** X8.  A yearly recurrence of interval [k] gives the same date as a
    monthly recurrence of interval [12 * k]. *)
Theorem yearly_is_twelve_months (tza t k : Z) :
  nextDate tza t (Some yearly) k = nextDate tza t (Some monthly) (12 * k).
Proof.
  rewrite nextDate_yearly, nextDate_monthly.
  unfold setFullYear, setMonth. cbv zeta. unfold getFullYear, getMonth.
  by rewrite MakeDay_years.
Qed.


Lemma setFullYear_DateValue (tza t year t' : Z) :
  setFullYear tza t year = DateValue t' →
  LocalTime tza t'
  = MakeDate (MakeDay year (getMonth tza t) (getDate tza t))
      (TimeWithinDay (LocalTime tza t)).
Proof.
  unfold setFullYear. cbv zeta. intros ->%TimeClip_DateValue.
  unfold UTC, getMonth, getDate.
  generalize (MakeDate (MakeDay year (MonthFromTime (LocalTime tza t))
                          (DateFromTime (LocalTime tza t)))
                (TimeWithinDay (LocalTime tza t))).
  intros z. unfold LocalTime. lia.
Qed.

(** Only February changes its length from year to year. *)
Lemma DaysInMonth_years (y y' mn : Z) :
  DaysInMonth y' mn < DaysInMonth y mn →
  mn = 1 ∧ DaysInMonth y' mn = 28 ∧ DaysInMonth y mn = 29.
Proof.
  unfold DaysInMonth.
  destruct (DaysInYear y =? 366), (DaysInYear y' =? 366);
    repeat (destruct mn as [|[mn|mn|]|]; try lia).
Qed.

(** X9.  For a yearly recurrence with a positive interval [k], a valid
    next occurrence is strictly later than the anchor, at the same time of
    day, and on the same day and month [k] years later when that day
    exists; the only day that may not exist is February 29, and then the
    result is March 1 of that year: it is not clamped to February 28. *)
Theorem yearly_advance (tza : Z) (t k t' : Z) :
  0 < k →
  nextDate tza t (Some yearly) k = DateValue t' →
  let y := getFullYear tza t in
  let m := getMonth tza t in
  let d := getDate tza t in
  t < t'
  ∧ TimeWithinDay (LocalTime tza t') = TimeWithinDay (LocalTime tza t)
  ∧ (d ≤ DaysInMonth (y + k) m →
       getFullYear tza t' = y + k ∧ getMonth tza t' = m ∧ getDate tza t' = d)
  ∧ (DaysInMonth (y + k) m < d →
       m = 1 ∧ d = 29
       ∧ getFullYear tza t' = y + k ∧ getMonth tza t' = 2
       ∧ getDate tza t' = 1).
Proof.
  intros Hk Hnext y m d.
  rewrite nextDate_yearly in Hnext.
  apply setFullYear_DateValue in Hnext as Hlocal. fold y m d in Hlocal.
  clear Hnext.
  unfold getFullYear, getMonth, getDate. rewrite Hlocal.
  pose proof (TimeWithinDay_range (LocalTime tza t)) as Htwd.
  destruct (civil_of_time (LocalTime tza t)) as (Hm & Hd & Hday).
  change (0 ≤ m ≤ 11) in Hm. change (1 ≤ d ≤ DaysInMonth y m) in Hd.
  change (MakeDay y m d = Day (LocalTime tza t)) in Hday.
  set (lt := LocalTime tza t) in *.
  split; [| split; [| split]].
  - pose proof (MakeDay_month_advance y m d (12 * k) ltac:(lia)) as Hadv.
    rewrite <- MakeDay_years, Hday in Hadv.
    pose proof (MakeDate_lt (Day lt) (MakeDay (y + k) m d) (TimeWithinDay lt)
                  ltac:(lia)) as Hlt.
    rewrite MakeDate_Day, <- Hlocal in Hlt.
    unfold lt, LocalTime in Hlt. lia.
  - by apply Day_MakeDate.
  - intros Hfit.
    destruct (time_of_civil (y + k) m d (TimeWithinDay lt)) as (? & ? & ? & _);
      [lia | lia | done | done].
  - intros Hover.
    destruct (DaysInMonth_years y (y + k) m ltac:(lia)) as (Hfeb & H28 & H29).
    assert (d = 29) as Hd29 by lia.
    split; [done |]. split; [done |].
    assert (MakeDay (y + k) m d = MakeDay (y + k) 2 1) as ->.
    { rewrite Hd29, Hfeb. rewrite Hfeb in H28.
      pose proof (MakeDay_next_month (y + k) 1 1) as Hn.
      change (1 / 12) with 0 in Hn. change (1 mod 12) with 1 in Hn.
      rewrite Z.add_0_r, H28 in Hn. exact Hn. }
    destruct (time_of_civil (y + k) 2 1 (TimeWithinDay lt)) as (? & ? & ? & _);
      [lia | | done | done].
    unfold DaysInMonth. lia.
Qed.

Lemma yearly_advance_witness :
  let t := utcMidnight 2024 2 29 in
  let t' := utcMidnight 2025 3 1 in
  t < t' ∧ getFullYear 0 t' = 2025 ∧ getMonth 0 t' = 2 ∧ getDate 0 t' = 1.
Proof.
  intros t t'.
  destruct (yearly_advance 0 t 1 t') as (Hlater & _ & _ & Hover);
    [lia | by vm_compute |].
  split; [exact Hlater |]. apply Hover. by vm_compute.
Defined.

End RecurrenceUnits.

Section RecurrenceEdges.

Import JSDate Expense.

Lemma daily_out_of_range (tza t k : Z) :
  8640000000000000 < Z.abs (t + k * msPerDay) →
  nextDate tza t (Some daily) k = InvalidDate.
Proof.
  intros Hbig. rewrite nextDate_daily, setDate_shift.
  unfold TimeClip. by apply Z.ltb_lt in Hbig as ->.
Qed.

(** X10.  When advancing the anchor leaves the range of valid dates, the
    candidate is an invalid date.  It is never "later than" [endDate], and
    the assignment to [nextOccurrence] is refused: [calculateNextOccurrence]
    leaves the expense as it was, with or without an [endDate]:
    [nextOccurrence] keeps the value it had and [isRecurring] does not
    change. *)
Theorem invalid_candidate_is_refused (tza : Z) (e : Expense)
  (p : RecurringPattern) :
  recurringPattern e = Some p →
  nextDate tza (date e) (frequency p) (interval p) = InvalidDate →
  calculateNextOccurrence tza e = e.
Proof.
  intros Hp Hinv.
  rewrite (calculateNextOccurrence_spec tza e p Hp), Hinv.
  assert (match endDate p with
          | Some endD => gt InvalidDate (DateValue endD)
          | None => false
          end = false) as -> by by destruct (endDate p).
  destruct e, p. cbn in Hp |- *. by rewrite Hp.
Qed.

Lemma invalid_candidate_is_refused_witness :
  let p := {| frequency := Some daily; interval := 1000000000;
              endDate := Some (utcMidnight 2024 12 31);
              nextOccurrence := Some (DateValue (utcMidnight 2024 2 1)) |} in
  let e := {| amount := Num.ofZ 100; date := utcMidnight 2024 1 31;
              type := personal; splitBetween := None; splitAmounts := None;
              isRecurring := true; recurringPattern := Some p |} in
  calculateNextOccurrence 0 e = e.
Proof.
  intros p e. apply (invalid_candidate_is_refused 0 e p).
  - reflexivity.
  - apply daily_out_of_range. by vm_compute.
Defined.

End RecurrenceEdges.

(** ** Expense: invariants of the save hook *)

Section ExpenseHookInvariants.

Import Num Expense.

Implicit Types (tza : Z) (e : Expense).

(** The two stages of the hook, as equations on its result. *)
Lemma preSave_recurrence tza e e' :
  preSave tza e = Next e' →
  ∃ e1,
    amount e1 = amount e ∧ date e1 = date e ∧ type e1 = type e
    ∧ splitBetween e1 = splitBetween e
    ∧ isRecurring e1 = isRecurring e
    ∧ recurringPattern e1 = recurringPattern e
    ∧ splitAmounts e1 = splitAmounts e'
    ∧ e' = match isRecurring e, recurringPattern e with
           | true, Some _ => calculateNextOccurrence tza e1
           | _, _ => e1
           end.
Proof.
  unfold preSave. intros [= <-].
  set (e1 := match type e with group => _ | _ => _ end).
  assert (amount e1 = amount e ∧ date e1 = date e ∧ type e1 = type e
          ∧ splitBetween e1 = splitBetween e
          ∧ isRecurring e1 = isRecurring e
          ∧ recurringPattern e1 = recurringPattern e) as (? & ? & ? & ? & Hr & Hp).
  { subst e1. destruct (type e) eqn:Hty; [by rewrite ?Hty |].
    destruct (splitBetween e) as [[|u b]|] eqn:Hsb; [by rewrite ?Hty, ?Hsb | | by rewrite ?Hty, ?Hsb].
    destruct (splitAmounts e) as [[|s l]|]; cbn; by rewrite ?Hty, ?Hsb. }
  exists e1. rewrite Hr, Hp. split_and!; try done.
  destruct (isRecurring e), (recurringPattern e);
    by rewrite ?calculateNextOccurrence_splitAmounts.
Qed.

Lemma calculateNextOccurrence_frame tza e :
  amount (calculateNextOccurrence tza e) = amount e
  ∧ date (calculateNextOccurrence tza e) = date e
  ∧ type (calculateNextOccurrence tza e) = type e
  ∧ splitBetween (calculateNextOccurrence tza e) = splitBetween e.
Proof.
  unfold calculateNextOccurrence.
  destruct (recurringPattern e) as [p|]; [| done].
  by destruct (match endDate p with Some _ => _ | None => _ end).
Qed.

(** The hook does not write [amount], [date], [type] or [splitBetween]. *)
Lemma preSave_fixed_fields tza e e' :
  preSave tza e = Next e' →
  amount e' = amount e ∧ date e' = date e ∧ type e' = type e
  ∧ splitBetween e' = splitBetween e.
Proof.
  intros Hsave.
  destruct (preSave_recurrence tza e e' Hsave)
    as (e1 & Ha & Hd & Ht & Hb & _ & _ & _ & ->).
  rewrite <- Ha, <- Hd, <- Ht, <- Hb.
  destruct (isRecurring e), (recurringPattern e); try done;
    apply calculateNextOccurrence_frame.
Qed.

(** X13.  The save hook never changes [amount], [date], [type] or
    [splitBetween]; it leaves [splitAmounts] alone for a personal expense
    and for an expense without participants; it leaves the recurrence fields
    alone when the expense is not recurring; and it never turns a
    non-recurring expense into a recurring one. *)
Theorem preSave_frame (tza : Z) (e e' : Expense) :
  preSave tza e = Next e' →
  amount e' = amount e ∧ date e' = date e ∧ type e' = type e
  ∧ splitBetween e' = splitBetween e
  ∧ (type e = personal ∨ splitBetween e = None ∨ splitBetween e = Some [] →
     splitAmounts e' = splitAmounts e)
  ∧ (isRecurring e = false →
     isRecurring e' = isRecurring e
     ∧ recurringPattern e' = recurringPattern e)
  ∧ (isRecurring e' = true → isRecurring e = true).
Proof.
  intros Hsave.
  pose proof (preSave_splitAmounts tza e e' Hsave) as Hsa.
  destruct (preSave_recurrence tza e e' Hsave)
    as (e1 & Ha & Hd & Ht & Hb & Hr & Hp & _ & ->).
  assert (∀ x, amount x = amount e1 ∧ date x = date e1 ∧ type x = type e1
               ∧ splitBetween x = splitBetween e1 →
               amount x = amount e ∧ date x = date e ∧ type x = type e
               ∧ splitBetween x = splitBetween e) as Hframe
    by (intros x (-> & -> & -> & ->); done).
  split_and!.
  - destruct (isRecurring e), (recurringPattern e); try done;
      by apply Hframe, calculateNextOccurrence_frame.
  - destruct (isRecurring e), (recurringPattern e); try done;
      by apply Hframe, calculateNextOccurrence_frame.
  - destruct (isRecurring e), (recurringPattern e); try done;
      by apply Hframe, calculateNextOccurrence_frame.
  - destruct (isRecurring e), (recurringPattern e); try done;
      by apply Hframe, calculateNextOccurrence_frame.
  - rewrite Hsa. intros [-> | [-> | ->]]; [done | |]; by destruct (type e).
  - intros H; rewrite H. cbn. by rewrite Hr, Hp, H.
  - destruct (isRecurring e) eqn:Hrec; [done |]. cbn. by rewrite Hr.
Qed.

Lemma preSave_frame_witness :
  let p := {| frequency := None; interval := 1; endDate := None;
              nextOccurrence := None |} in
  let e := {| amount := ofZ 100; date := JSDate.utcMidnight 2024 1 31;
              type := personal; splitBetween := Some ["u1"; "u2"];
              splitAmounts := None; isRecurring := false;
              recurringPattern := Some p |} in
  ∃ e', preSave 0 e = Next e' ∧ splitAmounts e' = None
        ∧ isRecurring e' = false ∧ recurringPattern e' = Some p.
Proof.
  intros p e. eexists. split; [reflexivity |].
  destruct (preSave_frame 0 e _ eq_refl) as (_ & _ & _ & _ & Hs & Hr & _).
  split.
  - apply Hs. left. reflexivity.
  - apply Hr. reflexivity.
Defined.

Lemma Expense_ext e1 e2 :
  amount e1 = amount e2 → date e1 = date e2 → type e1 = type e2 →
  splitBetween e1 = splitBetween e2 → splitAmounts e1 = splitAmounts e2 →
  isRecurring e1 = isRecurring e2 →
  recurringPattern e1 = recurringPattern e2 → e1 = e2.
Proof. destruct e1, e2. cbn. by intros -> -> -> -> -> -> ->. Qed.

(** What the hook leaves in the recurrence fields. *)
Lemma preSave_recurrence_fields tza e e' :
  preSave tza e = Next e' →
  (isRecurring e', recurringPattern e')
  = match isRecurring e, recurringPattern e with
    | true, Some p =>
        let c := nextDate tza (date e) (frequency p) (interval p) in
        if match endDate p with
           | Some endD => JSDate.gt c (JSDate.DateValue endD)
           | None => false
           end
        then (false, Some (set_nextOccurrence p None))
        else (true,
              Some (set_nextOccurrence p (assignDate (nextOccurrence p) c)))
    | r, pat => (r, pat)
    end.
Proof.
  intros Hsave.
  destruct (preSave_recurrence tza e e' Hsave)
    as (e1 & _ & Hd & _ & _ & Hr & Hp & _ & ->).
  destruct (isRecurring e) eqn:Hrec; [| by rewrite Hr, Hp].
  destruct (recurringPattern e) as [p|] eqn:Hpat; [| by rewrite Hr, Hp].
  rewrite (calculateNextOccurrence_spec tza e1 p Hp), Hd. cbn zeta.
  destruct (match endDate p with Some _ => _ | None => _ end); cbn; [done |].
  by rewrite Hr.
Qed.

(** X11.  The save hook is idempotent: running it on the document it
    produced gives that document again (the filled-in split is kept, the
    next occurrence is recomputed from the same anchor, a stopped
    recurrence stays stopped). *)
Theorem preSave_idempotent (tza : Z) (e e' : Expense) :
  preSave tza e = Next e' → preSave tza e' = Next e'.
Proof.
  intros Hsave. destruct (preSave_is_Next tza e') as [e'' Hsave'].
  rewrite Hsave'. f_equal.
  destruct (preSave_fixed_fields tza e e' Hsave) as (Ha & Hd & Ht & Hb).
  destruct (preSave_fixed_fields tza e' e'' Hsave') as (Ha' & Hd' & Ht' & Hb').
  pose proof (preSave_splitAmounts tza e e' Hsave) as Hsa.
  pose proof (preSave_splitAmounts tza e' e'' Hsave') as Hsa'.
  pose proof (preSave_recurrence_fields tza e e' Hsave) as Hrec.
  pose proof (preSave_recurrence_fields tza e' e'' Hsave') as Hrec'.
  assert (splitAmounts e'' = splitAmounts e') as Hsplit.
  { rewrite Hsa'. rewrite Ht, Hb. rewrite Hsa.
    destruct (type e); [done |].
    destruct (splitBetween e) as [[|u b]|]; [done | | done].
    by destruct (splitAmounts e) as [[|s l]|]. }
  assert ((isRecurring e'', recurringPattern e'')
          = (isRecurring e', recurringPattern e')) as [= Hr Hp].
  { rewrite Hrec'. rewrite Hd.
    destruct (isRecurring e) eqn:Hr0; [| by injection Hrec as -> ->].
    destruct (recurringPattern e) as [p|] eqn:Hp0; [| by injection Hrec as -> ->].
    cbn zeta in Hrec.
    destruct (match endDate p with Some _ => _ | None => _ end) eqn:Hpast;
      injection Hrec as -> ->; [done |].
    cbn [frequency interval endDate nextOccurrence set_nextOccurrence].
    cbn zeta. rewrite Hpast.
    by destruct (nextDate tza (date e) (frequency p) (interval p)). }
  apply Expense_ext; congruence.
Qed.

Lemma preSave_idempotent_witness :
  let p := {| frequency := Some monthly; interval := 1; endDate := None;
              nextOccurrence := None |} in
  let e := {| amount := ofZ 100; date := JSDate.utcMidnight 2024 1 31;
              type := group; splitBetween := Some ["u1"; "u2"; "u3"];
              splitAmounts := None; isRecurring := true;
              recurringPattern := Some p |} in
  ∃ e', preSave 0 e = Next e' ∧ preSave 0 e' = Next e'.
Proof.
  intros p e. eexists. split; [reflexivity |].
  apply (preSave_idempotent 0 e). reflexivity.
Defined.

End ExpenseHookInvariants.

Section SplitValidity.

Import Num Expense.

(** Rounding a non-negative significand with a positive sign never gives
    -0 either. *)
Lemma binary_round_aux_positive (mz ez : Z) (lz : location) :
  0 ≤ mz →
  match binary_round_aux prec emax false mz ez lz with
  | S754_zero false | S754_finite false _ _ | S754_infinity false => True
  | _ => False
  end.
Proof.
  intros Hm. unfold binary_round_aux.
  pose proof (shr_fexp_nonneg mz ez lz Hm) as H1.
  destruct (shr_fexp prec emax mz ez lz) as [mrs' e'].
  pose proof (shr_fexp_nonneg _ e' loc_Exact
                (round_nearest_even_nonneg _ (loc_of_shr_record mrs') H1))
    as H2.
  destruct (shr_fexp prec emax _ e' loc_Exact) as [mrs'' e''].
  cbn in H2. destruct (shr_m mrs'') as [|p|p]; [done | | lia].
  by destruct (e'' <=? emax - prec).
Qed.

Lemma binary_normalize_positive (z e : Z) :
  0 ≤ z →
  match binary_normalize prec emax z e false with
  | S754_zero false | S754_finite false _ _ | S754_infinity false => True
  | _ => False
  end.
Proof.
  intros Hz. destruct z as [|p|p]; [done | | lia].
  unfold binary_normalize, binary_round.
  destruct (shl_align _ _ _) as [mz ez].
  apply binary_round_aux_positive. lia.
Qed.

Lemma round_nonneg (x : number) : nonneg x → nonneg (round x).
Proof.
  destruct x as [s|[]| |[] m e]; try done. intros _. unfold round.
  destruct (Z.leb_spec 0 e) as [|He]; [done |].
  assert (0 ≤ (2 * cond_Zopp false (Z.pos m) + 2 ^ (- e)) / 2 ^ (1 - e))
    as Hn.
  { apply Z.div_pos; cbn [cond_Zopp].
    - pose proof (Z.pow_nonneg 2 (- e) ltac:(lia)). lia.
    - apply Z.pow_pos_nonneg; lia. }
  pose proof (binary_normalize_positive _ 0 Hn) as H.
  by destruct (binary_normalize prec emax _ 0 false) as [[]|[]| |[] ? ?].
Qed.

(** A positive finite number divided by +0, a positive number or
    +infinity is not negative. *)
Lemma div_positive_nonneg (mx : positive) (ex : Z) (y : number) :
  match y with
  | S754_zero false | S754_finite false _ _ | S754_infinity false => True
  | _ => False
  end →
  nonneg (div (S754_finite false mx ex) y).
Proof.
  destruct y as [[]|[]| |[] my ey]; try done. intros _.
  by apply (div_nonneg _ _ my ey).
Qed.

(** The share of the equal split is not negative. *)
Lemma share_nonneg (mx : positive) (ex : Z) (n : nat) :
  ge (div (round (mul (div (S754_finite false mx ex) (ofZ (Z.of_nat n)))
                    (ofZ 100)))
        (ofZ 100))
     (ofZ 0) = true.
Proof.
  apply ge_zero_nonneg.
  eapply div_nonneg; [| exact ofZ_100].
  apply round_nonneg. eapply mul_nonneg; [| exact ofZ_100].
  apply div_positive_nonneg. apply binary_normalize_positive. lia.
Qed.

(** A valid amount is a positive finite number. *)
Lemma valid_amount_finite (a : number) :
  ge a (div (ofZ 1) (ofZ 100)) = true →
  le a (div (ofZ 99999999999) (ofZ 100)) = true →
  ∃ m e, a = S754_finite false m e.
Proof.
  assert (∃ m e, div (ofZ 1) (ofZ 100) = S754_finite false m e) as (m1 & e1 & ->)
    by (vm_compute; eauto).
  assert (∃ m e, div (ofZ 99999999999) (ofZ 100) = S754_finite false m e)
    as (m2 & e2 & ->) by (vm_compute; eauto).
  destruct a as [s|[]| |[] m e]; cbn; try discriminate. eauto.
Qed.

Lemma validate_iff (e : Expense) :
  validate e = true
  ↔ ge (amount e) (div (ofZ 1) (ofZ 100)) = true
    ∧ le (amount e) (div (ofZ 99999999999) (ofZ 100)) = true
    ∧ forallb (λ s, ge (Split.amount s) (ofZ 0)) (default [] (splitAmounts e))
      = true
    ∧ match recurringPattern e with
      | Some p => 1 <=? interval p
      | None => true
      end = true.
Proof. unfold validate. rewrite !andb_true_iff. tauto. Qed.

(** X12.  The save hook keeps a valid document valid: for an expense that
    passes the numeric validators of the schema, the document the hook
    produces passes them too; in particular every share that the equal
    split fills in is at least 0. *)
Theorem preSave_keeps_valid (tza : Z) (e e' : Expense) :
  validate e = true → preSave tza e = Next e' → validate e' = true.
Proof.
  intros (Hmin & Hmax & Hsplit & Hint)%validate_iff Hsave.
  destruct (valid_amount_finite _ Hmin Hmax) as (m & ex & Hfin).
  destruct (preSave_fixed_fields tza e e' Hsave) as (Ha & _).
  pose proof (preSave_splitAmounts tza e e' Hsave) as Hsa.
  pose proof (preSave_recurrence_fields tza e e' Hsave) as Hrec.
  apply validate_iff. rewrite Ha. split_and!; [done | done | |].
  - assert (∀ b, forallb (λ s, ge (Split.amount s) (ofZ 0))
                   (equalSplit (amount e) b) = true) as Heq.
    { intros b. apply forallb_forall. intros s Hin. unfold equalSplit in Hin.
      apply List.in_map_iff in Hin as (u & <- & _). cbn.
      rewrite Hfin. apply share_nonneg. }
    rewrite Hsa. destruct (type e); [done |].
    destruct (splitBetween e) as [[|u b]|]; [done | | done].
    destruct (splitAmounts e) as [[|s l]|]; [apply Heq | done | apply Heq].
  - destruct (isRecurring e); [| by injection Hrec as _ ->].
    destruct (recurringPattern e) as [p|]; [| by injection Hrec as _ ->].
    cbn zeta in Hrec.
    destruct (match endDate p with Some _ => _ | None => _ end);
      by injection Hrec as _ ->.
Qed.

Lemma preSave_keeps_valid_witness :
  let e := {| amount := ofZ 100; date := JSDate.utcMidnight 2024 1 31;
              type := group; splitBetween := Some ["u1"; "u2"; "u3"];
              splitAmounts := None; isRecurring := false;
              recurringPattern := None |} in
  ∃ e', preSave 0 e = Next e' ∧ validate e' = true.
Proof.
  intros e. eexists. split; [reflexivity |].
  apply (preSave_keeps_valid 0 e); [by vm_compute | reflexivity].
Defined.

End SplitValidity.

(** ** Budget: remaining days, alerts, recomputation *)

Section BudgetRecompute.

Import Num Budget.

Lemma calculateStats_daysRemaining now expenses b :
  daysRemaining (stats (calculateStats now expenses b))
  = Z.max 0 (ceilDiv (endDate b - now) JSDate.msPerDay).
Proof. reflexivity. Qed.

(** X14.  [daysRemaining] is never negative; it is 0 exactly when the end
    date is reached ([endDate <= now]), in particular for an expired
    budget; before the end date it is the ceiling of the time left in
    days. *)
Theorem daysRemaining_spec (now : Z) (expenses : list number) (b : Budget) :
  let r := daysRemaining (stats (calculateStats now expenses b)) in
  0 ≤ r
  ∧ (r = 0 ↔ endDate b ≤ now)
  ∧ (now < endDate b →
       JSDate.msPerDay * (r - 1) < endDate b - now ≤ JSDate.msPerDay * r)
  ∧ (isExpired now b = true → r = 0).
Proof.
  cbn zeta. rewrite calculateStats_daysRemaining.
  pose proof (ceilDiv_spec (endDate b - now) JSDate.msPerDay) as Hc.
  unfold JSDate.msPerDay in *. specialize (Hc ltac:(lia)).
  split; [lia |]. split; [lia |]. split; [lia |].
  unfold isExpired. intros ?%Z.ltb_lt. lia.
Qed.

Lemma daysRemaining_spec_witness :
  let b := {| amount := ofZ 300; startDate := JSDate.utcMidnight 2024 3 10;
              endDate := JSDate.utcMidnight 2024 3 31;
              alertThreshold := ofZ 80;
              stats := {| spentAmount := ofZ 0; remainingAmount := ofZ 0;
                          percentageUsed := ofZ 0; daysRemaining := 0;
                          averageDailySpent := ofZ 0; lastUpdated := 0 |};
              status := active |} in
  daysRemaining (stats (calculateStats (JSDate.utcMidnight 2024 4 2) [] b)) = 0.
Proof.
  intros b.
  apply (daysRemaining_spec (JSDate.utcMidnight 2024 4 2) [] b).
  reflexivity.
Defined.

Lemma updateStatus_cases now b :
  updateStatus now b
  = match status b with
    | cancelled | paused => b
    | _ => set_status b
             (if isExpired now b
              then (if isOverBudget b then exceeded else completed)
              else if isOverBudget b then exceeded else active)
    end.
Proof.
  unfold updateStatus.
  destruct (status b); try done; by destruct (isExpired now b), (isOverBudget b).
Qed.

Lemma ge_refl (x : number) : isNaN x = false → ge x x = true.
Proof.
  destruct x as [[]|[]| |[] m e]; try done; intros _; unfold ge; cbn;
    by rewrite Z.compare_refl, Pos.compare_cont_refl.
Qed.

(** X15.  [shouldAlert] holds exactly for an [active] budget whose
    percentage has reached the threshold, the threshold itself included.
    After [updateStatus] an alert implies that the budget is within its
    period, not over budget and neither paused nor cancelled: an over-budget
    or expired budget never alerts once its status is derived. *)
Theorem shouldAlert_after_updateStatus (now : Z) (b : Budget) :
  let pct := percentageUsed (stats b) in
  (shouldAlert b = true ↔ ge pct (alertThreshold b) = true ∧ status b = active)
  ∧ (isNaN pct = false → alertThreshold b = pct → status b = active →
     shouldAlert b = true)
  ∧ (shouldAlert (updateStatus now b) = true →
     ge pct (alertThreshold b) = true
     ∧ now ≤ endDate b ∧ isOverBudget b = false
     ∧ status b ≠ paused ∧ status b ≠ cancelled)
  ∧ (isOverBudget b = true ∨ isExpired now b = true →
     shouldAlert (updateStatus now b) = false).
Proof.
  cbn zeta.
  assert (∀ c, shouldAlert c = true
               ↔ ge (percentageUsed (stats c)) (alertThreshold c) = true
                 ∧ status c = active) as Hiff.
  { intros c. unfold shouldAlert. rewrite andb_true_iff.
    by destruct (status c); intuition. }
  assert (shouldAlert (updateStatus now b) = true →
          ge (percentageUsed (stats b)) (alertThreshold b) = true
          ∧ now ≤ endDate b ∧ isOverBudget b = false
          ∧ status b ≠ paused ∧ status b ≠ cancelled) as Hafter.
  { rewrite Hiff, updateStatus_cases. unfold isExpired.
    destruct (Z.ltb_spec (endDate b) now), (isOverBudget b),
      (status b) eqn:Hst; cbn; rewrite ?Hst; intros [? ?];
      split_and!; done || lia. }
  split_and!.
  - apply Hiff.
  - intros Hnan Hthr Hact. apply Hiff. split; [| done].
    rewrite Hthr. by apply ge_refl.
  - exact Hafter.
  - intros Hbad. apply not_true_is_false. intros H%Hafter.
    destruct H as (_ & Hle & Hover & _). unfold isExpired in Hbad.
    destruct Hbad as [? | ?%Z.ltb_lt]; [congruence | lia].
Qed.

Lemma shouldAlert_after_updateStatus_witness :
  let b := {| amount := ofZ 200; startDate := JSDate.utcMidnight 2024 3 1;
              endDate := JSDate.utcMidnight 2024 3 31;
              alertThreshold := ofZ 80;
              stats := {| spentAmount := ofZ 250; remainingAmount := ofZ 0;
                          percentageUsed := ofZ 125; daysRemaining := 0;
                          averageDailySpent := ofZ 0; lastUpdated := 0 |};
              status := active |} in
  shouldAlert b = true
  ∧ shouldAlert (updateStatus (JSDate.utcMidnight 2024 3 15) b) = false.
Proof.
  intros b.
  destruct (shouldAlert_after_updateStatus (JSDate.utcMidnight 2024 3 15) b)
    as (Hiff & _ & _ & Hoff).
  split.
  - apply Hiff. split; [by vm_compute | reflexivity].
  - apply Hoff. left. by vm_compute.
Defined.

(** X16.  Recomputing twice is recomputing once: [updateStatus] is
    idempotent, [calculateStats] with the same inputs is idempotent, and so
    is [calculateStats] followed by [updateStatus]. *)
Theorem recompute_idempotent (now : Z) (expenses : list number) (b : Budget) :
  updateStatus now (updateStatus now b) = updateStatus now b
  ∧ calculateStats now expenses (calculateStats now expenses b)
    = calculateStats now expenses b
  ∧ updateStatus now
      (calculateStats now expenses
         (updateStatus now (calculateStats now expenses b)))
    = updateStatus now (calculateStats now expenses b).
Proof.
  assert (∀ c, updateStatus now (updateStatus now c) = updateStatus now c)
    as Hup.
  { intros c. rewrite (updateStatus_cases now c).
    destruct (status c) eqn:Hst; rewrite updateStatus_cases;
      try (by rewrite Hst);
      change (isExpired now (set_status c ?s)) with (isExpired now c);
      change (isOverBudget (set_status c ?s)) with (isOverBudget c);
      destruct (isExpired now c), (isOverBudget c); reflexivity. }
  assert (∀ c s, calculateStats now expenses (set_status c s)
                 = set_status (calculateStats now expenses c) s) as Hcomm
    by reflexivity.
  assert (∀ c, calculateStats now expenses (calculateStats now expenses c)
               = calculateStats now expenses c) as Hcalc by reflexivity.
  split_and!; [apply Hup | apply Hcalc |].
  set (c := calculateStats now expenses b).
  assert (calculateStats now expenses (updateStatus now c)
          = updateStatus now c) as ->; [| apply Hup].
  rewrite (updateStatus_cases now c).
  destruct (status c); rewrite ?Hcomm; unfold c; by rewrite Hcalc.
Qed.

End BudgetRecompute.

Section Remaining.

Import Num Budget.

Lemma binary_round_aux_not_NaN (s : bool) (mz ez : Z) (lz : location) :
  0 ≤ mz → isNaN (binary_round_aux prec emax s mz ez lz) = false.
Proof.
  intros Hm. unfold binary_round_aux.
  pose proof (shr_fexp_nonneg mz ez lz Hm) as H1.
  destruct (shr_fexp prec emax mz ez lz) as [mrs' e'].
  pose proof (shr_fexp_nonneg _ e' loc_Exact
                (round_nearest_even_nonneg _ (loc_of_shr_record mrs') H1))
    as H2.
  destruct (shr_fexp prec emax _ e' loc_Exact) as [mrs'' e''].
  cbn in H2. destruct (shr_m mrs'') as [|p|p]; [done | | lia].
  by destruct (e'' <=? emax - prec).
Qed.

Lemma binary_normalize_not_NaN (z e : Z) (s : bool) :
  isNaN (binary_normalize prec emax z e s) = false.
Proof.
  destruct z as [|p|p]; [done | |]; unfold binary_normalize, binary_round;
    destruct (shl_align _ _ _) as [mz ez];
    apply binary_round_aux_not_NaN; lia.
Qed.

(** The difference of two numbers that are zero or finite is not NaN. *)
Lemma sub_not_NaN (x y : number) :
  match x with S754_zero _ | S754_finite _ _ _ => True | _ => False end →
  match y with S754_zero _ | S754_finite _ _ _ => True | _ => False end →
  isNaN (sub x y) = false.
Proof.
  destruct x as [sx| | |sx mx ex], y as [sy| | |sy my ey]; try done;
    intros _ _; unfold sub, SFsub.
  - by destruct sx, sy.
  - apply binary_normalize_not_NaN.
Qed.

Lemma max_zero (x : number) :
  isNaN x = false →
  nonneg (max (ofZ 0) x) ∧ (max (ofZ 0) x = ofZ 0 ∨ max (ofZ 0) x = x).
Proof.
  change (ofZ 0) with (S754_zero false).
  destruct x as [[]|[]| |[] m e]; try done; intros _; cbn; auto.
Qed.

Lemma calculateStats_remainingAmount now expenses b :
  remainingAmount (stats (calculateStats now expenses b))
  = max (ofZ 0)
      (sub (amount b) (spentAmount (stats (calculateStats now expenses b)))).
Proof. reflexivity. Qed.

(** X17.  For a budget amount and an aggregated total that are zero or
    finite numbers, [remainingAmount] is never negative and never NaN: it is
    either 0 or exactly [amount - spentAmount]. *)
Theorem remainingAmount_nonneg (now : Z) (expenses : list number)
  (b : Budget) :
  let spent := spentAmount (stats (calculateStats now expenses b)) in
  let remaining := remainingAmount (stats (calculateStats now expenses b)) in
  match amount b with S754_zero _ | S754_finite _ _ _ => True | _ => False end →
  Forall (λ x, match x with
               | S754_zero _ | S754_finite _ _ _ => True
               | _ => False
               end) expenses →
  ge remaining (ofZ 0) = true
  ∧ (remaining = ofZ 0 ∨ remaining = sub (amount b) spent).
Proof.
  cbn zeta. intros Ha Hexp.
  rewrite calculateStats_remainingAmount, calculateStats_spentAmount.
  rewrite ge_zero_nonneg. apply max_zero, sub_not_NaN; [done |].
  destruct Hexp as [|x l Hx _]; [| done]. by change (ofZ 0) with (S754_zero false).
Qed.

Lemma remainingAmount_nonneg_witness :
  let b := {| amount := ofZ 200; startDate := JSDate.utcMidnight 2024 3 1;
              endDate := JSDate.utcMidnight 2024 3 31;
              alertThreshold := ofZ 80;
              stats := {| spentAmount := ofZ 0; remainingAmount := ofZ 0;
                          percentageUsed := ofZ 0; daysRemaining := 0;
                          averageDailySpent := ofZ 0; lastUpdated := 0 |};
              status := active |} in
  ge (remainingAmount (stats (calculateStats 0 [ofZ 250] b))) (ofZ 0) = true
  ∧ (remainingAmount (stats (calculateStats 0 [ofZ 250] b)) = ofZ 0
     ∨ remainingAmount (stats (calculateStats 0 [ofZ 250] b))
       = sub (amount b) (spentAmount (stats (calculateStats 0 [ofZ 250] b)))).
Proof.
  intros b. apply (remainingAmount_nonneg 0 [ofZ 250] b).
  - by vm_compute.
  - apply Forall_cons. split; [by vm_compute | apply Forall_nil; done].
Defined.

End Remaining.

(** ** Category: the save hook *)

Section CategoryHook.

Import Category.

(** X18.  The save hook of a category refuses exactly the category that
    names itself as parent, and returns any other category unchanged: two
    distinct categories that are each other's parent both pass. *)
Theorem Category_preSave_self_parent (c : Category) :
  (parentCategory c = Some (_id c) →
   preSave c = NextError "Category cannot be its own parent")
  ∧ (parentCategory c ≠ Some (_id c) → preSave c = Next c)
  ∧ ∀ d : Category,
      _id c ≠ _id d →
      parentCategory c = Some (_id d) → parentCategory d = Some (_id c) →
      preSave c = Next c ∧ preSave d = Next d.
Proof.
  assert (∀ x : Category, parentCategory x ≠ Some (_id x) → preSave x = Next x)
    as Hok.
  { intros x Hx. unfold preSave. destruct (parentCategory x) as [p|]; [| done].
    destruct (String.eqb_spec p (_id x)) as [-> | ]; done. }
  split_and!.
  - intros H. unfold preSave. by rewrite H, String.eqb_refl.
  - apply Hok.
  - intros d Hne Hc Hd. split; apply Hok; congruence.
Qed.

Lemma Category_preSave_self_parent_witness :
  let a := {| _id := "c1"; userId := None; parentCategory := Some "c2";
              subcategories := [] |} in
  let b := {| _id := "c2"; userId := None; parentCategory := Some "c1";
              subcategories := [] |} in
  preSave a = Next a ∧ preSave b = Next b.
Proof.
  intros a b.
  apply (proj2 (proj2 (Category_preSave_self_parent a)) b);
    [discriminate | reflexivity | reflexivity].
Defined.

End CategoryHook.

(** ** Budget: the stored percentage is never below the schema minimum *)

Section PercentageMinimum.

Import Num Budget.

Lemma percentageUsed_nonneg_witness :
  let b := {| amount := ofZ 200; startDate := JSDate.utcMidnight 2024 3 1;
              endDate := JSDate.utcMidnight 2024 3 31;
              alertThreshold := ofZ 80;
              stats := {| spentAmount := ofZ 0; remainingAmount := ofZ 0;
                          percentageUsed := ofZ 0; daysRemaining := 0;
                          averageDailySpent := ofZ 0; lastUpdated := 0 |};
              status := active |} in
  ge (percentageUsed (stats (calculateStats 0 [ofZ 250] b))) (ofZ 0) = true.
Proof.
  intros b. eapply (percentageUsed_nonneg 0 [ofZ 250] b).
  - by vm_compute.
  - apply Forall_cons. split; [by vm_compute | apply Forall_nil; done].
Defined.

End PercentageMinimum.
